(** * Square.tsx: the per-cell unit of the chessboard widget

    A shallow embedding of [src/chessboard/components/Square.tsx]: the
    corner-rounding lookup [borderRadius], the two style objects the cell
    renders, the drop handler [handleDrop], the DOM event handlers of the
    cell's [div] and the geometry-publishing effect.

    JavaScript objects used as dictionaries (style objects, the map of
    square coordinates) are finite maps with string keys; object spread is
    a right-biased merge.  Calls to the mutators that the shared context
    (and the parent, for [setSquares]) hands to the cell are recorded, in
    program order, as a list of [Call]s. *)

From Stdlib Require Import ZArith Ascii String Floats.SpecFloat.
From stdpp Require Import gmap strings list fin_maps.

Open Scope string_scope.
Open Scope list_scope.

(** ** JavaScript values *)

(** A JavaScript [number] is an IEEE 754 binary64 value. *)
Definition number : Type := spec_float.

Definition num_div : number → number → number := SFdiv 53 1024.
Definition num_of_Z (z : Z) : number := binary_normalize 53 1024 z 0 false.

#[global] Instance number_eq_dec : EqDecision number.
Proof. solve_decision. Defined.

(** Truthiness ([ToBoolean]) of numbers and strings: [0], [-0] and [NaN]
    are falsy, and so is the empty string. *)
Definition truthy_num (n : number) : bool :=
  match n with
  | S754_zero _ | S754_nan => false
  | _ => true
  end.

Definition truthy_str (s : string) : bool :=
  match s with
  | EmptyString => false
  | String _ _ => true
  end.

(** A value of a style object: [string | number]. *)
Inductive StyleVal :=
  | VStr (s : string)
  | VNum (n : number).

#[global] Instance StyleVal_eq_dec : EqDecision StyleVal.
Proof. solve_decision. Defined.

Definition truthy (v : StyleVal) : bool :=
  match v with
  | VStr s => truthy_str s
  | VNum n => truthy_num n
  end.

(** [Record<string, string | number>] *)
Abbreviation Style := (gmap string StyleVal).

(** The object literal [{ ...l1, ...l2, ... }]: layers are merged from left
    to right and a later layer overrides an earlier one property by
    property.  Spreading [false] or [undefined] (here [None]) adds nothing. *)
Definition object_spread (layers : list (option Style)) : Style :=
  fold_left (λ acc layer,
               match layer with
               | Some s => s ∪ acc
               | None => acc
               end) layers ∅.

(** [cond && style] in spread position. *)
Definition and_style (cond : bool) (s : option Style) : option Style :=
  if cond then s else None.

(** ** Types of the board ([../types]) *)

(** [Square] ("a1" .. "h8") and [Piece] ("wP" .. "bK") are string-literal
    types; at run time they are strings. *)
Abbreviation Sq := string (only parsing).
Abbreviation Piece := string (only parsing).

Definition files : list string := ["a"; "b"; "c"; "d"; "e"; "f"; "g"; "h"].
Definition ranks : list string := ["1"; "2"; "3"; "4"; "5"; "6"; "7"; "8"].

(** The 64 cells of the board. *)
Definition squares : list Sq :=
  Eval cbv in flat_map (λ f, map (λ r, String.append f r) ranks) files.

Definition is_square (s : Sq) : Prop := s ∈ squares.

(** ["white" | "black"]: both [BoardOrientation] and the [squareColor]
    prop. *)
Inductive Side := white | black.

#[global] Instance Side_eq_dec : EqDecision Side.
Proof. solve_decision. Defined.

Abbreviation BoardOrientation := Side (only parsing).

(** [Coords] *)
Record Coords := { x : number; y : number }.

#[global] Instance Coords_eq_dec : EqDecision Coords.
Proof. solve_decision. Defined.

(** ** Corner rounding *)

(** [customBoardStyle?.borderRadius] *)
Definition board_borderRadius (customBoardStyle : option Style) : option StyleVal :=
  customBoardStyle ≫= (λ s, s !! "borderRadius").

Definition borderRadius (square : Sq) (boardOrientation : BoardOrientation)
    (customBoardStyle : option Style) : Style :=
  match board_borderRadius customBoardStyle with
  | None => ∅
  | Some r =>
    if negb (truthy r) then ∅
    else if String.eqb square "a1" then
      match boardOrientation with
      | white => {[ "borderBottomLeftRadius" := r ]}
      | black => {[ "borderTopRightRadius" := r ]}
      end
    else if String.eqb square "a8" then
      match boardOrientation with
      | white => {[ "borderTopLeftRadius" := r ]}
      | black => {[ "borderBottomRightRadius" := r ]}
      end
    else if String.eqb square "h1" then
      match boardOrientation with
      | white => {[ "borderBottomRightRadius" := r ]}
      | black => {[ "borderTopLeftRadius" := r ]}
      end
    else if String.eqb square "h8" then
      match boardOrientation with
      | white => {[ "borderTopRightRadius" := r ]}
      | black => {[ "borderBottomLeftRadius" := r ]}
      end
    else ∅
  end.

(** The four literal corners of the board. *)
Definition corners : list Sq := ["a1"; "a8"; "h1"; "h8"].

(** The property [borderRadius] sets for a corner under an orientation. *)
Definition corner_property (square : Sq) (o : BoardOrientation) : string :=
  if String.eqb square "a1" then
    match o with white => "borderBottomLeftRadius" | black => "borderTopRightRadius" end
  else if String.eqb square "a8" then
    match o with white => "borderTopLeftRadius" | black => "borderBottomRightRadius" end
  else if String.eqb square "h1" then
    match o with white => "borderBottomRightRadius" | black => "borderTopLeftRadius" end
  else
    match o with white => "borderTopRightRadius" | black => "borderBottomLeftRadius" end.

(** ** The shared context ([useChessboard]) *)

(** The fields of the context value the cell reads. *)
Record Chessboard := {
  autoPromoteToQueen : bool;
  boardWidth : number;
  boardOrientation : BoardOrientation;
  currentRightClickDown : option Sq;
  customBoardStyle : option Style;
  customDarkSquareStyle : Style;
  customDropSquareStyle : Style;
  customLightSquareStyle : Style;
  customPremoveDarkSquareStyle : Style;
  customPremoveLightSquareStyle : Style;
  customSquareStyles : option (gmap Sq Style);
  onPromotionCheck : Sq → Sq → Piece → bool;
}.

(** A call to one of the mutators the cell is handed: by the context, by
    its parent ([setSquares], whose argument is a state updater), by its
    own [useState] ([setLastSquareDraggedOver]) or by the event
    ([preventDefault]).  The fourth argument of [handleSetPosition] is
    optional: [None] is a call with three arguments. *)
Inductive Call :=
  | handleSetPosition (sourceSq targetSq : Sq) (piece : Piece) (flag : option bool)
  | setPromoteFromSquare (square : Sq)
  | setPromoteToSquare (square : Sq)
  | setShowPromoteDialog (show : bool)
  | setSquares (updater : gmap Sq Coords → gmap Sq Coords)
  | setLastSquareDraggedOver (square : Sq)
  | onDragOverSquare (square : Sq)
  | onMouseOverSquare (square : Sq)
  | onMouseOutSquare (square : Sq)
  | onRightClickDown (square : Sq)
  | onRightClickUp (square : Sq)
  | onArrowDrawEnd (fromSquare toSquare : Sq)
  | drawNewArrow (fromSquare toSquare : Sq)
  | onSquareClick (square : Sq)
  | clearArrows
  | preventDefault.

(** ** Drop target *)

(** The drag payload [{ piece, square, id }]. *)
Record DragItem := {
  item_piece : Piece;
  item_square : Sq;
  item_id : number;
}.

(** [piece[0] === "w"] *)
Definition first_is_w (piece : Piece) : bool :=
  match String.get 0 piece with
  | Some c => bool_decide (c = "w"%char)
  | None => false
  end.

(** [handleDrop].  [ctx] and [square] are the context and the prop of the
    render whose closure the drop target holds. *)
Definition handleDrop (ctx : Chessboard) (square : Sq) (item : DragItem) : list Call :=
  if onPromotionCheck ctx (item_square item) square (item_piece item) then
    if autoPromoteToQueen ctx then
      [ handleSetPosition (item_square item) square
          (if first_is_w (item_piece item) then "wQ" else "bQ") None ]
    else
      [ setPromoteFromSquare (item_square item);
        setPromoteToSquare square;
        setShowPromoteDialog true ]
  else
    [ handleSetPosition (item_square item) square (item_piece item) (Some true) ].

(** The moves a list of calls commits. *)
Definition is_commit (c : Call) : bool :=
  match c with
  | handleSetPosition _ _ _ _ => true
  | _ => false
  end.

Definition commits (calls : list Call) : list Call := List.filter is_commit calls.

(** Modelled from the spec: the move-commit mutator of the shared context
    is not part of this file; the spec gives its fourth parameter as the
    animate-flag.  An omitted argument is [undefined], which is falsy. *)
Definition animated (flag : option bool) : bool :=
  match flag with
  | Some b => b
  | None => false
  end.

(** The promotion-dialog state of the shared context. *)
Record PromotionDialog := {
  promoteFromSquare : option Sq;
  promoteToSquare : option Sq;
  showPromoteDialog : bool;
}.

(** Modelled from the spec: the three promotion setters of the shared
    context are not part of this file; each stores its argument in the
    shared dialog state.  No other call of the cell touches that state. *)
Definition dialog_step (d : PromotionDialog) (c : Call) : PromotionDialog :=
  match c with
  | setPromoteFromSquare sq =>
    {| promoteFromSquare := Some sq;
       promoteToSquare := promoteToSquare d;
       showPromoteDialog := showPromoteDialog d |}
  | setPromoteToSquare sq =>
    {| promoteFromSquare := promoteFromSquare d;
       promoteToSquare := Some sq;
       showPromoteDialog := showPromoteDialog d |}
  | setShowPromoteDialog b =>
    {| promoteFromSquare := promoteFromSquare d;
       promoteToSquare := promoteToSquare d;
       showPromoteDialog := b |}
  | _ => d
  end.

Definition dialog_run (d : PromotionDialog) (calls : list Call) : PromotionDialog :=
  fold_left dialog_step calls d.

(** Modelled from the spec: the context's [onRightClickDown] is not part
    of this file; it records its cell as the right-click-down origin, the
    value the cell later reads as [currentRightClickDown].  What the other
    mutators do to the origin is not described; they leave it alone here. *)
Definition rightClickDown_step (origin : option Sq) (c : Call) : option Sq :=
  match c with
  | onRightClickDown sq => Some sq
  | _ => origin
  end.

Definition rightClickDown_run (origin : option Sq) (calls : list Call) : option Sq :=
  fold_left rightClickDown_step calls origin.

(** ** Style compositor *)

(** [const center] *)
Definition center : Style :=
  {[ "display" := VStr "flex"; "justifyContent" := VStr "center" ]}.

(** [const size = (width) => ({ width: width / 8, height: width / 8 })] *)
Definition size (width : number) : Style :=
  {[ "width" := VNum (num_div width (num_of_Z 8));
     "height" := VNum (num_div width (num_of_Z 8)) ]}.

(** The base colour layer and the premove layer, chosen by
    [squareColor === "black"]. *)
Definition base_layer (ctx : Chessboard) (squareColor : Side) : Style :=
  match squareColor with
  | black => customDarkSquareStyle ctx
  | white => customLightSquareStyle ctx
  end.

Definition premove_layer (ctx : Chessboard) (squareColor : Side) : Style :=
  match squareColor with
  | black => customPremoveDarkSquareStyle ctx
  | white => customPremoveLightSquareStyle ctx
  end.

(** The [style] of the cell's outer [div]. *)
Definition defaultSquareStyle (ctx : Chessboard) (square : Sq) (squareColor : Side)
    (squareHasPremove isOver : bool) : Style :=
  object_spread
    [ Some (borderRadius square (boardOrientation ctx) (customBoardStyle ctx));
      Some (base_layer ctx squareColor);
      and_style squareHasPremove (Some (premove_layer ctx squareColor));
      and_style isOver (Some (customDropSquareStyle ctx)) ].

(** The [style] handed to [CustomSquare], the inner content wrapper (the
    same object in both branches of the renderer dispatch). *)
Definition customSquareStyle (ctx : Chessboard) (square : Sq)
    (squareHasPremove : bool) : Style :=
  object_spread
    [ Some (size (boardWidth ctx));
      Some center;
      and_style (negb squareHasPremove) (customSquareStyles ctx ≫= (λ m, m !! square)) ].

(** The context with another [customSquareStyles]. *)
Definition with_customSquareStyles (ctx : Chessboard)
    (styles : option (gmap Sq Style)) : Chessboard :=
  {| autoPromoteToQueen := autoPromoteToQueen ctx;
     boardWidth := boardWidth ctx;
     boardOrientation := boardOrientation ctx;
     currentRightClickDown := currentRightClickDown ctx;
     customBoardStyle := customBoardStyle ctx;
     customDarkSquareStyle := customDarkSquareStyle ctx;
     customDropSquareStyle := customDropSquareStyle ctx;
     customLightSquareStyle := customLightSquareStyle ctx;
     customPremoveDarkSquareStyle := customPremoveDarkSquareStyle ctx;
     customPremoveLightSquareStyle := customPremoveLightSquareStyle ctx;
     customSquareStyles := styles;
     onPromotionCheck := onPromotionCheck ctx |}.

(** ** The DOM the handlers see *)

(** [DOMRect], as far as the cell reads it. *)
Record DOMRect := { rect_x : number; rect_y : number }.

(** An element: its identity, its attributes, its bounding box and its
    children. *)
#[local] Set Warnings "-register-all".
Inductive Node :=
  | mkNode (node_id : nat) (attributes : gmap string string)
           (boundingClientRect : DOMRect) (childNodes : list Node).

Definition node_id (n : Node) : nat :=
  match n with mkNode i _ _ _ => i end.
Definition attributes (n : Node) : gmap string string :=
  match n with mkNode _ a _ _ => a end.
Definition getBoundingClientRect (n : Node) : DOMRect :=
  match n with mkNode _ _ r _ => r end.
Definition childNodes (n : Node) : list Node :=
  match n with mkNode _ _ _ c => c end.

(** [a === b] on elements. *)
Definition same_node (a b : Node) : bool := Nat.eqb (node_id a) (node_id b).

(** [Node.contains]: [other] is the node itself or one of its
    descendants. *)
Fixpoint contains (n other : Node) : bool :=
  match n with
  | mkNode i _ _ children =>
    Nat.eqb i (node_id other) || existsb (λ c, contains c other) children
  end.

(** [other] is a descendant of [n]: a child of [n], or a descendant of a
    child. *)
Definition descendant (n other : Node) : bool :=
  existsb (λ c, contains c other) (childNodes n).

(** [el.getAttribute(name)]: [null] when the attribute is absent. *)
Definition getAttribute (el : Node) (name : string) : option string :=
  attributes el !! name.

Definition truthy_opt (o : option string) : bool :=
  match o with
  | Some s => truthy_str s
  | None => false
  end.

(** [MouseEvent], as far as the handlers read it. *)
Record MouseEvent := {
  button : Z;
  buttons : Z;
  relatedTarget : option Node;
  currentTarget : Node;
}.

Record Touch := { clientX : number; clientY : number }.

Record TouchEvent := { touches : list Touch }.

(** ** Gesture router *)

(** [touchElement?.find((el) => el.getAttribute("data-square"))
      ?.getAttribute("data-square")]: the tag of the first element of the
    hit-test that carries a truthy [data-square]. *)
Definition touch_target (touchElement : list Node) : option Sq :=
  find (λ el, truthy_opt (getAttribute el "data-square")) touchElement
    ≫= (λ el, getAttribute el "data-square").

(** [onTouchMove].  [elementsFromPoint] is [document.elementsFromPoint],
    topmost element first; [lastSquareDraggedOver] is the value of the
    cell's state in the render the handler belongs to.  [None] is the
    [TypeError] of reading [clientX] of [undefined] when [touches] is
    empty. *)
Definition onTouchMove (elementsFromPoint : number → number → list Node)
    (lastSquareDraggedOver : option Sq) (e : TouchEvent) : option (list Call) :=
  match touches e with
  | [] => None
  | touchLocation :: _ =>
    let touchElement :=
      elementsFromPoint (clientX touchLocation) (clientY touchLocation) in
    let square := touch_target touchElement in
    match square with
    | Some sq =>
      if truthy_str sq && negb (bool_decide (Some sq = lastSquareDraggedOver)) then
        Some [ setLastSquareDraggedOver sq; onDragOverSquare sq ]
      else Some []
    | None => Some []
    end
  end.

(** [e.relatedTarget && e.currentTarget.contains(e.relatedTarget)] *)
Definition from_inside (e : MouseEvent) : bool :=
  match relatedTarget e with
  | Some rt => contains (currentTarget e) rt
  | None => false
  end.

Definition onMouseOver (ctx : Chessboard) (square : Sq) (e : MouseEvent) : list Call :=
  (match currentRightClickDown ctx with
   | Some origin =>
     if Z.eqb (buttons e) 2 && truthy_str origin then [ drawNewArrow origin square ]
     else []
   | None => []
   end)
  ++ (if from_inside e then [] else [ onMouseOverSquare square ]).

Definition onMouseOut (square : Sq) (e : MouseEvent) : list Call :=
  if from_inside e then [] else [ onMouseOutSquare square ].

Definition onMouseDown (square : Sq) (e : MouseEvent) : list Call :=
  if Z.eqb (button e) 2 then [ onRightClickDown square ] else [].

Definition onMouseUp (ctx : Chessboard) (square : Sq) (e : MouseEvent) : list Call :=
  if Z.eqb (button e) 2 then
    (match currentRightClickDown ctx with
     | Some origin =>
       if truthy_str origin then [ onArrowDrawEnd origin square ] else []
     | None => []
     end)
    ++ [ onRightClickUp square ]
  else [].

Definition onDragEnter (square : Sq) : list Call := [ onDragOverSquare square ].

Definition onClick (square : Sq) : list Call := [ onSquareClick square; clearArrows ].

Definition onContextMenu : list Call := [ preventDefault ].

(** ** The mounted cell and React's hooks *)

(** The props of [Square] that the cell itself reads ([children] is only
    passed through to the content wrapper, [setSquares] is a [Call]). *)
Record SquareProps := {
  prop_square : Sq;
  prop_squareColor : Side;
  prop_squareHasPremove : bool;
}.

(** The dependency array [[boardWidth, boardOrientation]]. *)
Abbreviation Deps := (number * BoardOrientation)%type (only parsing).

(** What React keeps for one mounted [Square]: the [useState] cell, the
    [useRef] cell and the dependencies the effect last ran or was skipped
    with ([None] until the first commit). *)
Record Instance := {
  lastSquareDraggedOver : option Sq;
  squareRef : option Node;
  effectDeps : option Deps;
}.

(** A fresh instance: [useState(null)], and the ref as React attaches it
    while committing the first render ([None] when [CustomSquare] forwards
    no ref). *)
Definition mount (ref : option Node) : Instance :=
  {| lastSquareDraggedOver := None; squareRef := ref; effectDeps := None |}.

(** The body of the effect. *)
Definition measure (squareRef : option Node) (square : Sq) : list Call :=
  match squareRef with
  | Some current =>
    let r := getBoundingClientRect current in
    [ setSquares (λ oldSquares,
                    <[ square := {| x := rect_x r; y := rect_y r |} ]> oldSquares) ]
  | None => []
  end.

(** [useEffect(f, deps)]: [f] runs after the first commit and after every
    commit whose dependencies differ (by [Object.is], here equality of
    binary64 values and of orientations) from the previous ones. *)
Definition deps_changed (prev : option Deps) (next : Deps) : bool :=
  match prev with
  | None => true
  | Some d => negb (bool_decide (d = next))
  end.

(** Committing a render of the cell with the given props and context. *)
Definition commit (inst : Instance) (props : SquareProps) (ctx : Chessboard)
    : Instance * list Call :=
  let deps := (boardWidth ctx, boardOrientation ctx) in
  ({| lastSquareDraggedOver := lastSquareDraggedOver inst;
      squareRef := squareRef inst;
      effectDeps := Some deps |},
   if deps_changed (effectDeps inst) deps
   then measure (squareRef inst) (prop_square props)
   else []).

(** The parent's [squares] state: React applies the queued updaters in
    order. *)
Definition squares_step (m : gmap Sq Coords) (c : Call) : gmap Sq Coords :=
  match c with
  | setSquares updater => updater m
  | _ => m
  end.

Definition squares_run (m : gmap Sq Coords) (calls : list Call) : gmap Sq Coords :=
  fold_left squares_step calls m.

(** The cell's own state: [setLastSquareDraggedOver] takes effect for the
    next render, from which the next event's handler reads it. *)
Definition local_step (inst : Instance) (c : Call) : Instance :=
  match c with
  | setLastSquareDraggedOver sq =>
    {| lastSquareDraggedOver := Some sq;
       squareRef := squareRef inst;
       effectDeps := effectDeps inst |}
  | _ => inst
  end.

(** One touch-move event delivered to a cell instance, and the re-render
    its state update causes: the instance is returned as that next render
    reads it. *)
Definition touchMove (elementsFromPoint : number → number → list Node)
    (inst : Instance) (e : TouchEvent) : Instance * list Call :=
  match onTouchMove elementsFromPoint (lastSquareDraggedOver inst) e with
  | Some calls => (fold_left local_step calls inst, calls)
  | None => (inst, [])
  end.

(** The cell instances of a board, by cell; a touch-move event is
    delivered to the instance of its target cell. *)
Definition board_touchMove (elementsFromPoint : number → number → list Node)
    (cells : gmap Sq Instance) (target : Sq) (e : TouchEvent)
    : gmap Sq Instance * list Call :=
  match cells !! target with
  | Some inst =>
    let r := touchMove elementsFromPoint inst e in
    (<[ target := r.1 ]> cells, r.2)
  | None => (cells, [])
  end.

(** The drag-over signals among a list of calls. *)
Definition dragOvers (calls : list Call) : list Sq :=
  omap (λ c, match c with onDragOverSquare sq => Some sq | _ => None end) calls.

(** [!!customBoardStyle?.borderRadius] *)
Definition has_borderRadius (customBoardStyle : option Style) : bool :=
  match board_borderRadius customBoardStyle with
  | Some r => truthy r
  | None => false
  end.

(** The animate-flags of the moves a list of calls commits. *)
Definition commit_flags (calls : list Call) : list (option bool) :=
  omap (λ c, match c with handleSetPosition _ _ _ f => Some f | _ => None end) calls.

(** The right-click-up signals among a list of calls. *)
Definition rightClickUps (calls : list Call) : list Sq :=
  omap (λ c, match c with onRightClickUp sq => Some sq | _ => None end) calls.

(** A step in the life of a mounted cell: a touch-move event, with the
    hit-test of the document at its time, or a re-render of the cell.
    React does not promise a re-render between two events. *)
Inductive TouchStep :=
  | touch_event (elementsFromPoint : number → number → list Node) (e : TouchEvent)
  | rerender.

(** A mounted cell between renders: the instance as the current render
    read it (the handlers of that render hold its
    [lastSquareDraggedOver]), the calls queued since that render, and all
    calls made so far. *)
Record Running := {
  current : Instance;
  queued : list Call;
  made : list Call;
}.

(** An event is handled by the handler of the current render, which
    compares with the record that render read; its calls are made at
    once, but [setLastSquareDraggedOver] only queues the new record.  A
    re-render applies the queued state updates. *)
Definition touch_step (r : Running) (s : TouchStep) : Running :=
  match s with
  | touch_event elementsFromPoint e =>
    match onTouchMove elementsFromPoint (lastSquareDraggedOver (current r)) e with
    | Some calls =>
      {| current := current r;
         queued := queued r ++ calls;
         made := made r ++ calls |}
    | None => r
    end
  | rerender =>
    {| current := fold_left local_step (queued r) (current r);
       queued := [];
       made := made r |}
  end.

Definition touch_steps (r : Running) (steps : list TouchStep) : Running :=
  fold_left touch_step steps r.

(** A run of steps of a cell instance that has just rendered. *)
Definition touch_run (inst : Instance) (steps : list TouchStep) : Running :=
  touch_steps {| current := inst; queued := []; made := [] |} steps.

(** The run of the given events in which the cell re-renders after every
    event, and the run in which one render handles them all. *)
Definition rerender_after_each
    (events : list ((number → number → list Node) * TouchEvent)) : list TouchStep :=
  flat_map (λ ev, [ touch_event ev.1 ev.2; rerender ]) events.

Definition within_one_render
    (events : list ((number → number → list Node) * TouchEvent)) : list TouchStep :=
  map (λ ev, touch_event ev.1 ev.2) events.

(** An element of a hit-test that carries no truthy [data-square]. *)
Definition untagged (el : Node) : Prop :=
  truthy_opt (getAttribute el "data-square") = false.

(** The coordinates the effect publishes for an element. *)
Definition coords_of (el : Node) : Coords :=
  {| x := rect_x (getBoundingClientRect el); y := rect_y (getBoundingClientRect el) |}.

(** ** Sample data *)

Definition sample_context : Chessboard :=
  {| autoPromoteToQueen := false;
     boardWidth := num_of_Z 560;
     boardOrientation := white;
     currentRightClickDown := None;
     customBoardStyle := Some ∅;
     customDarkSquareStyle := {[ "backgroundColor" := VStr "#B58863" ]};
     customDropSquareStyle := {[ "boxShadow" := VStr "inset 0 0 1px 6px rgba(255,255,255,0.75)" ]};
     customLightSquareStyle := {[ "backgroundColor" := VStr "#F0D9B5" ]};
     customPremoveDarkSquareStyle := {[ "backgroundColor" := VStr "#A42323" ]};
     customPremoveLightSquareStyle := {[ "backgroundColor" := VStr "#BD2828" ]};
     customSquareStyles := None;
     onPromotionCheck := λ _ targetSq piece,
       (String.eqb piece "wP" && String.eqb (String.substring 1 1 targetSq) "8")
       || (String.eqb piece "bP" && String.eqb (String.substring 1 1 targetSq) "1") |}.

(** The context with another auto-promote flag, and with another recorded
    right-click-down origin. *)
Definition with_autoPromoteToQueen (ctx : Chessboard) (b : bool) : Chessboard :=
  {| autoPromoteToQueen := b;
     boardWidth := boardWidth ctx;
     boardOrientation := boardOrientation ctx;
     currentRightClickDown := currentRightClickDown ctx;
     customBoardStyle := customBoardStyle ctx;
     customDarkSquareStyle := customDarkSquareStyle ctx;
     customDropSquareStyle := customDropSquareStyle ctx;
     customLightSquareStyle := customLightSquareStyle ctx;
     customPremoveDarkSquareStyle := customPremoveDarkSquareStyle ctx;
     customPremoveLightSquareStyle := customPremoveLightSquareStyle ctx;
     customSquareStyles := customSquareStyles ctx;
     onPromotionCheck := onPromotionCheck ctx |}.

Definition with_currentRightClickDown (ctx : Chessboard) (origin : option Sq)
    : Chessboard :=
  {| autoPromoteToQueen := autoPromoteToQueen ctx;
     boardWidth := boardWidth ctx;
     boardOrientation := boardOrientation ctx;
     currentRightClickDown := origin;
     customBoardStyle := customBoardStyle ctx;
     customDarkSquareStyle := customDarkSquareStyle ctx;
     customDropSquareStyle := customDropSquareStyle ctx;
     customLightSquareStyle := customLightSquareStyle ctx;
     customPremoveDarkSquareStyle := customPremoveDarkSquareStyle ctx;
     customPremoveLightSquareStyle := customPremoveLightSquareStyle ctx;
     customSquareStyles := customSquareStyles ctx;
     onPromotionCheck := onPromotionCheck ctx |}.

Definition sample_rect : DOMRect := {| rect_x := num_of_Z 280; rect_y := num_of_Z 210 |}.

(** The cell e4: the outer [div] (tagged with the cell), the content
    wrapper inside it and the piece inside that. *)
Definition piece_e4 : Node := mkNode 3 ∅ sample_rect [].
Definition wrapper_e4 : Node := mkNode 2 ∅ sample_rect [ piece_e4 ].
Definition cell_e4 : Node :=
  mkNode 1 {[ "data-square" := "e4"; "data-square-color" := "white" ]}
    sample_rect [ wrapper_e4 ].

(** A sibling cell. *)
Definition cell_d4 : Node :=
  mkNode 4 {[ "data-square" := "d4"; "data-square-color" := "black" ]}
    {| rect_x := num_of_Z 210; rect_y := num_of_Z 210 |} [].

Definition mouse_event (button buttons : Z) (related : option Node) (current : Node)
    : MouseEvent :=
  {| button := button; buttons := buttons;
     relatedTarget := related; currentTarget := current |}.

Definition pawn_drop (piece : Piece) (source : Sq) : DragItem :=
  {| item_piece := piece; item_square := source; item_id := num_of_Z 0 |}.

(** A one-finger touch-move at a point. *)
Definition touch_at (cx cy : Z) : TouchEvent :=
  {| touches := [ {| clientX := num_of_Z cx; clientY := num_of_Z cy |} ] |}.

(** A document whose hit-test finds, everywhere, the piece on e4 above
    its wrapper above the cell e4; and one that finds no cell. *)
Definition over_e4 (_ _ : number) : list Node := [ piece_e4; wrapper_e4; cell_e4 ].

(** A context whose light squares carry a border besides their colour. *)
Definition bordered_context : Chessboard :=
  {| autoPromoteToQueen := false;
     boardWidth := num_of_Z 560;
     boardOrientation := white;
     currentRightClickDown := None;
     customBoardStyle := Some ∅;
     customDarkSquareStyle := {[ "backgroundColor" := VStr "#B58863" ]};
     customDropSquareStyle := {[ "boxShadow" := VStr "inset 0 0 1px 6px rgba(255,255,255,0.75)" ]};
     customLightSquareStyle :=
       {[ "backgroundColor" := VStr "#F0D9B5"; "border" := VStr "1px solid #888" ]};
     customPremoveDarkSquareStyle := {[ "backgroundColor" := VStr "#A42323" ]};
     customPremoveLightSquareStyle := {[ "backgroundColor" := VStr "#BD2828" ]};
     customSquareStyles := Some {[ "e4" := {[ "backgroundColor" := VStr "yellow" ]} ]};
     onPromotionCheck := λ _ _ _, false |}.

Definition sample_props (square : Sq) : SquareProps :=
  {| prop_square := square; prop_squareColor := white;
     prop_squareHasPremove := false |}.

(** ** The rendered element *)

(** [typeof CustomSquare === "string"]: the pluggable renderer of the
    context is a tag name or a component. *)
Inductive CustomSquareRenderer :=
  | TagName (tag : string)
  | Component.

(** The props [Square] hands to [CustomSquare], the ref and the children
    apart; a tag name gets no [square] and no [squareColor]. *)
Record CustomSquareProps := {
  cs_square : option Sq;
  cs_squareColor : option Side;
  cs_style : Style;
}.

Definition side_string (s : Side) : string :=
  match s with
  | white => "white"
  | black => "black"
  end.

(** What [Square] returns: the outer [div] with its style and its two
    data attributes, and the [CustomSquare] inside it. *)
Record SquareElement := {
  div_style : Style;
  div_attributes : gmap string string;
  div_child : CustomSquareProps;
}.

Definition render (ctx : Chessboard) (CustomSquare : CustomSquareRenderer)
    (props : SquareProps) (isOver : bool) : SquareElement :=
  {| div_style :=
       defaultSquareStyle ctx (prop_square props) (prop_squareColor props)
         (prop_squareHasPremove props) isOver;
     div_attributes :=
       {[ "data-square-color" := side_string (prop_squareColor props);
          "data-square" := prop_square props ]};
     div_child :=
       match CustomSquare with
       | TagName _ =>
         {| cs_square := None;
            cs_squareColor := None;
            cs_style := customSquareStyle ctx (prop_square props)
                          (prop_squareHasPremove props) |}
       | Component =>
         {| cs_square := Some (prop_square props);
            cs_squareColor := Some (prop_squareColor props);
            cs_style := customSquareStyle ctx (prop_square props)
                          (prop_squareHasPremove props) |}
       end |}.

(** The DOM element of the outer [div]: its attributes are the data
    attributes of the rendered element. *)
Definition div_node (el : SquareElement) (id : nat) (rect : DOMRect)
    (children : list Node) : Node :=
  mkNode id (div_attributes el) rect children.

(** ** Runs of renders and of events *)

(** A run of commits of one cell instance, each with the props and the
    context of its render. *)
Definition commit_all (inst : Instance) (renders : list (SquareProps * Chessboard))
    : Instance * list Call :=
  fold_left (λ acc r,
               let c := commit acc.1 r.1 r.2 in
               (c.1, acc.2 ++ c.2))
            renders (inst, []).

(** The instance after React attached (or detached) the ref. *)
Definition attach_ref (inst : Instance) (ref : option Node) : Instance :=
  {| lastSquareDraggedOver := lastSquareDraggedOver inst;
     squareRef := ref;
     effectDeps := effectDeps inst |}.

(** Each square of the list differs from the one before it, the first
    from [prev]. *)
Fixpoint steps_apart (prev : option Sq) (l : list Sq) : Prop :=
  match l with
  | [] => True
  | s :: l' => prev ≠ Some s ∧ steps_apart (Some s) l'
  end.

(** The four rounding properties [borderRadius] can set. *)
Definition radius_properties : list string :=
  [ "borderBottomLeftRadius"; "borderTopLeftRadius";
    "borderBottomRightRadius"; "borderTopRightRadius" ].

(** The properties [size] and [center] define. *)
Definition wrapper_properties : gset string :=
  {[ "width"; "height"; "display"; "justifyContent" ]}.

(** A touch-move event, with the hit-test of its time, resolves to a
    cell: it has a first touch and the hit-test at that touch finds the
    cell's tag first. *)
Definition resolves_to (ev : (number → number → list Node) * TouchEvent) (sq : Sq)
    : Prop :=
  ∃ t rest, touches ev.2 = t :: rest
            ∧ touch_target (ev.1 (clientX t) (clientY t)) = Some sq.

(** * Properties *)

(** ** Corner rounding *)

Section CornerRounding.

Variable customBoardStyle0 : option Style.
Variable r : StyleVal.
Hypothesis Hradius : board_borderRadius customBoardStyle0 = Some r.
Hypothesis Htruthy : truthy r = true.

Lemma borderRadius_a1 o :
  borderRadius "a1" o customBoardStyle0 = {[ corner_property "a1" o := r ]}.
Proof. unfold borderRadius. rewrite Hradius, Htruthy. by destruct o. Qed.

Lemma borderRadius_a8 o :
  borderRadius "a8" o customBoardStyle0 = {[ corner_property "a8" o := r ]}.
Proof. unfold borderRadius. rewrite Hradius, Htruthy. by destruct o. Qed.

Lemma borderRadius_h1 o :
  borderRadius "h1" o customBoardStyle0 = {[ corner_property "h1" o := r ]}.
Proof. unfold borderRadius. rewrite Hradius, Htruthy. by destruct o. Qed.

Lemma borderRadius_h8 o :
  borderRadius "h8" o customBoardStyle0 = {[ corner_property "h8" o := r ]}.
Proof. unfold borderRadius. rewrite Hradius, Htruthy. by destruct o. Qed.

Lemma borderRadius_corner square o :
  square ∈ corners →
  borderRadius square o customBoardStyle0 = {[ corner_property square o := r ]}.
Proof.
  unfold corners. rewrite !elem_of_cons, elem_of_nil.
  intros [-> | [-> | [-> | [-> | []]]]];
    auto using borderRadius_a1, borderRadius_a8, borderRadius_h1, borderRadius_h8.
Qed.

End CornerRounding.

Lemma corner_property_orientation square :
  corner_property square white ≠ corner_property square black.
Proof.
  unfold corner_property.
  destruct (String.eqb square "a1"), (String.eqb square "a8"),
    (String.eqb square "h1"); discriminate.
Qed.

Lemma singleton_style_key_inj (k1 k2 : string) (v : StyleVal) :
  ({[ k1 := v ]} : Style) = {[ k2 := v ]} → k1 = k2.
Proof.
  intros Heq. destruct (decide (k1 = k2)) as [|Hne]; [done|].
  apply (f_equal (lookup k1)) in Heq.
  rewrite lookup_singleton_eq, lookup_singleton_ne in Heq by done.
  discriminate.
Qed.

Lemma borderRadius_not_corner square o cbs :
  square ∉ corners → borderRadius square o cbs = ∅.
Proof.
  unfold corners. rewrite !not_elem_of_cons. intros (H1 & H2 & H3 & H4 & _).
  unfold borderRadius.
  destruct (board_borderRadius cbs) as [v|]; [|done].
  destruct (truthy v); [simpl|done].
  apply String.eqb_neq in H1, H2, H3, H4. by rewrite H1, H2, H3, H4.
Qed.

Lemma borderRadius_no_radius square o cbs :
  has_borderRadius cbs = false → borderRadius square o cbs = ∅.
Proof.
  unfold has_borderRadius, borderRadius.
  destruct (board_borderRadius cbs) as [v|]; [|done].
  by intros ->.
Qed.

(** C3, as the code has it: when the board-level custom style carries a
    truthy [borderRadius] [r], the lookup returns for each of the four
    corner cells and each orientation a style with exactly one property,
    the rounding of one corner with value [r], and the styles of the two
    orientations differ; for a cell that is no corner it returns the
    empty style under both orientations, whatever the board style. *)
Theorem borderRadius_corner_lookup (square : Sq) (cbs : option Style) (r : StyleVal) :
  board_borderRadius cbs = Some r →
  truthy r = true →
  (square ∈ corners →
     (∀ o, borderRadius square o cbs = {[ corner_property square o := r ]}
           ∧ base.size (borderRadius square o cbs) = 1)
     ∧ borderRadius square white cbs ≠ borderRadius square black cbs)
  ∧ (square ∉ corners → ∀ o cbs', borderRadius square o cbs' = ∅).
Proof.
  intros Hr Ht. split.
  - intros Hc. split.
    + intros o. rewrite (borderRadius_corner cbs r Hr Ht square o Hc).
      split; [done|]. apply map_size_singleton.
    + rewrite !(borderRadius_corner cbs r Hr Ht square _ Hc).
      intros Heq%singleton_style_key_inj.
      by apply (corner_property_orientation square).
  - intros Hc o cbs'. by apply borderRadius_not_corner.
Qed.

Lemma borderRadius_corner_lookup_witness :
  borderRadius "h1" white (Some {[ "borderRadius" := VStr "5px" ]})
    = {[ "borderBottomRightRadius" := VStr "5px" ]}
  ∧ borderRadius "h1" black (Some {[ "borderRadius" := VStr "5px" ]})
    = {[ "borderTopLeftRadius" := VStr "5px" ]}.
Proof.
  pose proof (borderRadius_corner_lookup "h1"
                (Some {[ "borderRadius" := VStr "5px" ]}) (VStr "5px")
                eq_refl eq_refl) as [Hcorner _].
  destruct Hcorner as [Hstyle _].
  - unfold corners. set_solver.
  - split; apply Hstyle.
Defined.

(** With the default board style (an object without [borderRadius]) the
    lookup is empty at a corner, and the same under both orientations. *)
Lemma borderRadius_corner_unconfigured :
  borderRadius "a1" white (Some ∅) = ∅
  ∧ borderRadius "a1" white (Some ∅) = borderRadius "a1" black (Some ∅).
Proof. split; reflexivity. Qed.

(** C8: without a truthy board-level [borderRadius] the lookup returns the
    empty style for every cell, the corners included, and both
    orientations; a non-empty result implies that one is configured. *)
Theorem borderRadius_needs_board_radius (square : Sq) (o : BoardOrientation)
    (cbs : option Style) :
  (has_borderRadius cbs = false → borderRadius square o cbs = ∅)
  ∧ (borderRadius square o cbs ≠ ∅ → has_borderRadius cbs = true).
Proof.
  split.
  - apply borderRadius_no_radius.
  - intros Hne. destruct (has_borderRadius cbs) eqn:Hb; [done|].
    by apply (borderRadius_no_radius square o) in Hb.
Qed.

Lemma borderRadius_needs_board_radius_witness :
  borderRadius "h8" black (Some {[ "borderRadius" := VNum (num_of_Z 0) ]}) = ∅
  ∧ has_borderRadius (Some {[ "borderRadius" := VStr "5px" ]}) = true.
Proof.
  split.
  - apply (borderRadius_needs_board_radius "h8" black
             (Some {[ "borderRadius" := VNum (num_of_Z 0) ]})).
    reflexivity.
  - apply (borderRadius_needs_board_radius "h8" black
             (Some {[ "borderRadius" := VStr "5px" ]})).
    vm_compute. discriminate.
Defined.

(** ** Drop target *)

(** C1: a drop asks the promotion check; when promotion is required and
    auto-promote is set, the one call is a move commit with the queen of
    the payload's colour; when promotion is required and auto-promote is
    not set, the origin and this cell are stored in the promotion-dialog
    state, the dialog is shown, and no move is committed; when promotion
    is not required, the one call is a move commit with the payload's own
    piece and the animate-flag [true]. *)
Theorem handleDrop_cases (ctx : Chessboard) (square : Sq) (item : DragItem) :
  (onPromotionCheck ctx (item_square item) square (item_piece item) = true →
   autoPromoteToQueen ctx = true →
     (String.get 0 (item_piece item) = Some "w"%char →
        handleDrop ctx square item
          = [ handleSetPosition (item_square item) square "wQ" None ])
     ∧ (String.get 0 (item_piece item) = Some "b"%char →
        handleDrop ctx square item
          = [ handleSetPosition (item_square item) square "bQ" None ]))
  ∧ (onPromotionCheck ctx (item_square item) square (item_piece item) = true →
     autoPromoteToQueen ctx = false →
       handleDrop ctx square item
         = [ setPromoteFromSquare (item_square item);
             setPromoteToSquare square;
             setShowPromoteDialog true ]
       ∧ commits (handleDrop ctx square item) = []
       ∧ ∀ d, dialog_run d (handleDrop ctx square item)
              = {| promoteFromSquare := Some (item_square item);
                   promoteToSquare := Some square;
                   showPromoteDialog := true |})
  ∧ (onPromotionCheck ctx (item_square item) square (item_piece item) = false →
       handleDrop ctx square item
         = [ handleSetPosition (item_square item) square (item_piece item) (Some true) ]
       ∧ map animated (commit_flags (handleDrop ctx square item)) = [ true ]).
Proof.
  unfold handleDrop, first_is_w. split; [|split].
  - intros -> ->. split; intros ->.
    + by rewrite bool_decide_eq_true_2.
    + by rewrite bool_decide_eq_false_2.
  - by intros -> ->.
  - by intros ->.
Qed.

Lemma handleDrop_cases_witness :
  handleDrop (with_autoPromoteToQueen sample_context true) "e8" (pawn_drop "wP" "e7")
    = [ handleSetPosition "e7" "e8" "wQ" None ]
  ∧ handleDrop (with_autoPromoteToQueen sample_context true) "d1" (pawn_drop "bP" "d2")
    = [ handleSetPosition "d2" "d1" "bQ" None ]
  ∧ commits (handleDrop sample_context "e8" (pawn_drop "wP" "e7")) = []
  ∧ handleDrop sample_context "e5" (pawn_drop "wP" "e4")
    = [ handleSetPosition "e4" "e5" "wP" (Some true) ].
Proof.
  split; [|split; [|split]].
  - destruct (handleDrop_cases (with_autoPromoteToQueen sample_context true) "e8"
                (pawn_drop "wP" "e7")) as (Hauto & _ & _).
    destruct Hauto as [Hwhite _]; [reflexivity | reflexivity |].
    apply Hwhite. reflexivity.
  - destruct (handleDrop_cases (with_autoPromoteToQueen sample_context true) "d1"
                (pawn_drop "bP" "d2")) as (Hauto & _ & _).
    destruct Hauto as [_ Hblack]; [reflexivity | reflexivity |].
    apply Hblack. reflexivity.
  - destruct (handleDrop_cases sample_context "e8" (pawn_drop "wP" "e7"))
      as (_ & Hdialog & _).
    destruct Hdialog as (_ & Hnone & _); [reflexivity | reflexivity |].
    exact Hnone.
  - destruct (handleDrop_cases sample_context "e5" (pawn_drop "wP" "e4"))
      as (_ & _ & Hplain).
    destruct Hplain as [Hcall _]; [reflexivity |].
    exact Hcall.
Defined.



(** ** Gesture router: mouse *)

Lemma is_square_truthy (s : Sq) : is_square s → truthy_str s = true.
Proof.
  assert (Forall (λ s, truthy_str s = true) squares) as Hall
    by (unfold squares; repeat constructor).
  rewrite Forall_forall in Hall. apply Hall.
Qed.

(** C6: a secondary-button mouse-down on cell [A] is one right-click-down
    call for [A], which records [A] as the origin; a secondary-button
    mouse-up on cell [B], in a context that holds this origin, signals one
    arrow-finalize from [A] to [B] and then the right-click-up for [B];
    and every secondary-button mouse-up, whatever origin the context
    holds, signals the right-click-up for its cell exactly once, as its
    last call. *)
Theorem right_click_arrow (ctx : Chessboard) (A B : Sq) (down up : MouseEvent)
    (origin0 : option Sq) :
  is_square A →
  button down = 2%Z →
  button up = 2%Z →
  currentRightClickDown ctx = rightClickDown_run origin0 (onMouseDown A down) →
  onMouseDown A down = [ onRightClickDown A ]
  ∧ rightClickDown_run origin0 (onMouseDown A down) = Some A
  ∧ onMouseUp ctx B up = [ onArrowDrawEnd A B; onRightClickUp B ]
  ∧ ∀ ctx', rightClickUps (onMouseUp ctx' B up) = [ B ]
            ∧ last (onMouseUp ctx' B up) = Some (onRightClickUp B).
Proof.
  intros HA Hdown Hup Hctx.
  assert (onMouseDown A down = [ onRightClickDown A ]) as Hcalls
    by (unfold onMouseDown; by rewrite Hdown).
  rewrite Hcalls in Hctx |- *. simpl in Hctx.
  split; [done|]. split; [done|]. split.
  - unfold onMouseUp. rewrite Hup, Hctx. simpl.
    by rewrite (is_square_truthy A HA).
  - intros ctx'. unfold onMouseUp. rewrite Hup. simpl.
    destruct (currentRightClickDown ctx') as [o|]; [|done].
    by destruct (truthy_str o).
Qed.

Lemma right_click_arrow_witness :
  onMouseUp (with_currentRightClickDown sample_context (Some "e2")) "e4"
    (mouse_event 2 0 None cell_e4)
  = [ onArrowDrawEnd "e2" "e4"; onRightClickUp "e4" ].
Proof.
  refine (proj1 (proj2 (proj2
    (right_click_arrow (with_currentRightClickDown sample_context (Some "e2"))
       "e2" "e4" (mouse_event 2 2 None cell_d4) (mouse_event 2 0 None cell_e4)
       None _ eq_refl eq_refl eq_refl)))).
  unfold is_square, squares. set_solver.
Defined.

Lemma contains_same_or_descendant (n other : Node) :
  contains n other = same_node n other || descendant n other.
Proof. by destruct n. Qed.

Lemma onMouseOut_calls (square : Sq) (e : MouseEvent) :
  onMouseOut square e = if from_inside e then [] else [ onMouseOutSquare square ].
Proof. done. Qed.

Lemma hover_enter_elem (ctx : Chessboard) (square : Sq) (e : MouseEvent) :
  onMouseOverSquare square ∈ onMouseOver ctx square e ↔ from_inside e = false.
Proof.
  unfold onMouseOver. rewrite elem_of_app. split.
  - intros [Harrow | Hhover].
    + destruct (currentRightClickDown ctx) as [o|]; [|by apply elem_of_nil in Harrow].
      destruct (Z.eqb (buttons e) 2 && truthy_str o).
      * apply list_elem_of_singleton in Harrow. discriminate.
      * by apply elem_of_nil in Harrow.
    + destruct (from_inside e); [by apply elem_of_nil in Hhover | done].
  - intros ->. right. by apply list_elem_of_singleton.
Qed.

(** C7, as the code has it: a mouse-out signals hover-leave for the cell,
    once, exactly when the event has no related target or its related
    target is neither the cell's own element nor a descendant of it, and
    signals nothing otherwise; a mouse-over signals hover-enter for the
    cell under the same condition. *)
Theorem hover_signals (ctx : Chessboard) (square : Sq) (e : MouseEvent) :
  (from_inside e = false ↔
     ∀ rt, relatedTarget e = Some rt →
           same_node (currentTarget e) rt = false
           ∧ descendant (currentTarget e) rt = false)
  ∧ (onMouseOutSquare square ∈ onMouseOut square e ↔ from_inside e = false)
  ∧ (from_inside e = false → onMouseOut square e = [ onMouseOutSquare square ])
  ∧ (from_inside e = true → onMouseOut square e = [])
  ∧ (onMouseOverSquare square ∈ onMouseOver ctx square e ↔ from_inside e = false).
Proof.
  split; [|split; [|split; [|split]]].
  - unfold from_inside. destruct (relatedTarget e) as [rt|].
    + rewrite contains_same_or_descendant, orb_false_iff. split.
      * by intros H rt' [= <-].
      * intros H. by apply H.
    + split; [by intros _ rt' [=] | done].
  - rewrite onMouseOut_calls. destruct (from_inside e).
    + split; [by intros H%elem_of_nil | done].
    + split; [done | intros _; by apply list_elem_of_singleton].
  - rewrite onMouseOut_calls. by intros ->.
  - rewrite onMouseOut_calls. by intros ->.
  - apply hover_enter_elem.
Qed.

Lemma hover_signals_witness :
  onMouseOut "e4" (mouse_event 0 0 (Some cell_d4) cell_e4) = [ onMouseOutSquare "e4" ]
  ∧ onMouseOut "e4" (mouse_event 0 0 (Some piece_e4) cell_e4) = [].
Proof.
  split.
  - apply (hover_signals sample_context "e4" (mouse_event 0 0 (Some cell_d4) cell_e4)).
    reflexivity.
  - apply (hover_signals sample_context "e4" (mouse_event 0 0 (Some piece_e4) cell_e4)).
    reflexivity.
Defined.

(** A mouse-out (or mouse-over) that bubbles up from a child of the cell
    with the cell's own element as related target: the element is no
    descendant of itself, and yet neither hover signal fires. *)
Lemma hover_related_target_is_cell :
  descendant cell_e4 cell_e4 = false
  ∧ onMouseOut "e4" (mouse_event 0 0 (Some cell_e4) cell_e4) = []
  ∧ onMouseOver sample_context "e4" (mouse_event 0 0 (Some cell_e4) cell_e4) = [].
Proof. split; [|split]; reflexivity. Qed.

(** ** Gesture router: touch *)

Lemma touch_target_truthy (els : list Node) (sq : Sq) :
  touch_target els = Some sq → truthy_str sq = true.
Proof.
  unfold touch_target.
  destruct (find _ els) as [el|] eqn:Hfind; [|done].
  apply find_some in Hfind as [_ Htag]. simpl. intros Hsq.
  by rewrite Hsq in Htag.
Qed.

Lemma touch_target_topmost (els : list Node) (sq : Sq) :
  touch_target els = Some sq ↔
  ∃ above el below,
    els = above ++ el :: below
    ∧ Forall untagged above
    ∧ getAttribute el "data-square" = Some sq
    ∧ truthy_str sq = true.
Proof.
  unfold touch_target. induction els as [|el els IH]; simpl.
  - split; [done|]. intros (above & el & below & Heq & _). by destruct above.
  - destruct (truthy_opt (getAttribute el "data-square")) eqn:Htag; simpl.
    + split.
      * intros Hsq. exists [], el, els. rewrite Hsq in Htag. by repeat split.
      * intros (above & el' & below & Heq & Hall & Hsq & _).
        destruct above as [|a above]; simplify_eq/=; [done|].
        apply Forall_cons in Hall as [Ha _]. unfold untagged in Ha. congruence.
    + rewrite IH. split.
      * intros (above & el' & below & -> & Hall & Hsq & Ht).
        exists (el :: above), el', below. repeat split; [|done..].
        by apply Forall_cons.
      * intros (above & el' & below & Heq & Hall & Hsq & Ht).
        destruct above as [|a above]; simplify_eq/=.
        -- rewrite Hsq in Htag. simpl in Htag. congruence.
        -- apply Forall_cons in Hall as [_ Hall]. by exists above, el', below.
Qed.

Lemma onTouchMove_new (efp : number → number → list Node) (record : option Sq)
    (t : Touch) (rest : list Touch) (sq : Sq) :
  touch_target (efp (clientX t) (clientY t)) = Some sq →
  record ≠ Some sq →
  onTouchMove efp record {| touches := t :: rest |}
    = Some [ setLastSquareDraggedOver sq; onDragOverSquare sq ].
Proof.
  intros Hhit Hne. unfold onTouchMove. simpl. rewrite Hhit.
  rewrite (touch_target_truthy _ _ Hhit). simpl.
  by rewrite bool_decide_eq_false_2.
Qed.

Lemma onTouchMove_same (efp : number → number → list Node)
    (t : Touch) (rest : list Touch) (sq : Sq) :
  touch_target (efp (clientX t) (clientY t)) = Some sq →
  onTouchMove efp (Some sq) {| touches := t :: rest |} = Some [].
Proof.
  intros Hhit. unfold onTouchMove. simpl. rewrite Hhit.
  rewrite bool_decide_eq_true_2 by done. by rewrite andb_false_r.
Qed.

Lemma onTouchMove_miss (efp : number → number → list Node) (record : option Sq)
    (t : Touch) (rest : list Touch) :
  touch_target (efp (clientX t) (clientY t)) = None →
  onTouchMove efp record {| touches := t :: rest |} = Some [].
Proof. intros Hhit. unfold onTouchMove. simpl. by rewrite Hhit. Qed.

Lemma touchMove_new (efp : number → number → list Node) (inst : Instance)
    (t : Touch) (rest : list Touch) (sq : Sq) :
  touch_target (efp (clientX t) (clientY t)) = Some sq →
  lastSquareDraggedOver inst ≠ Some sq →
  touchMove efp inst {| touches := t :: rest |}
    = ({| lastSquareDraggedOver := Some sq;
          squareRef := squareRef inst;
          effectDeps := effectDeps inst |},
       [ setLastSquareDraggedOver sq; onDragOverSquare sq ]).
Proof.
  intros Hhit Hne. unfold touchMove. by rewrite (onTouchMove_new _ _ _ _ sq).
Qed.

Lemma touchMove_same (efp : number → number → list Node) (inst : Instance)
    (t : Touch) (rest : list Touch) (sq : Sq) :
  touch_target (efp (clientX t) (clientY t)) = Some sq →
  lastSquareDraggedOver inst = Some sq →
  touchMove efp inst {| touches := t :: rest |} = (inst, []).
Proof.
  intros Hhit Hrec. unfold touchMove. rewrite Hrec.
  by rewrite (onTouchMove_same _ _ _ sq).
Qed.

Lemma touchMove_miss (efp : number → number → list Node) (inst : Instance)
    (t : Touch) (rest : list Touch) :
  touch_target (efp (clientX t) (clientY t)) = None →
  touchMove efp inst {| touches := t :: rest |} = (inst, []).
Proof. intros Hhit. unfold touchMove. by rewrite onTouchMove_miss. Qed.

Lemma touch_steps_made (steps : list TouchStep) (i : Instance) (q m : list Call) :
  touch_steps {| current := i; queued := q; made := m |} steps
  = {| current := current (touch_steps {| current := i; queued := q; made := [] |} steps);
       queued := queued (touch_steps {| current := i; queued := q; made := [] |} steps);
       made := m ++ made (touch_steps {| current := i; queued := q; made := [] |} steps) |}.
Proof.
  unfold touch_steps. revert i q m.
  induction steps as [|s steps IH]; intros i q m; simpl.
  - by rewrite app_nil_r.
  - destruct s as [efp e|]; simpl.
    + destruct (onTouchMove efp (lastSquareDraggedOver i) e) as [calls|]; simpl.
      * rewrite IH. rewrite (IH i (q ++ calls) calls). simpl. by rewrite app_assoc.
      * apply IH.
    + apply IH.
Qed.

Lemma touch_run_event_rerender (efp : number → number → list Node) (e : TouchEvent)
    (inst : Instance) (steps : list TouchStep) :
  touch_run inst (touch_event efp e :: rerender :: steps)
  = {| current := current (touch_run (touchMove efp inst e).1 steps);
       queued := queued (touch_run (touchMove efp inst e).1 steps);
       made := (touchMove efp inst e).2 ++ made (touch_run (touchMove efp inst e).1 steps) |}.
Proof.
  unfold touch_run, touchMove. unfold touch_steps at 1. simpl.
  destruct (onTouchMove efp (lastSquareDraggedOver inst) e) as [calls|]; simpl.
  - apply (touch_steps_made steps _ [] calls).
  - apply (touch_steps_made steps _ [] []).
Qed.





(** C10: the record of the last square dragged over belongs to the cell
    instance that handled the event.  A touch-move handled by the instance
    of cell [A] updates the record of [A] alone; the same square reported
    again to [A] signals nothing, while the instance of another cell [B],
    whose own record does not hold that square, signals drag-over for it
    again. *)
Theorem drag_over_record_per_instance (efp : number → number → list Node)
    (cells : gmap Sq Instance) (A B : Sq) (instA instB : Instance)
    (t t' : Touch) (rest rest' : list Touch) (sq : Sq) :
  A ≠ B →
  cells !! A = Some instA →
  cells !! B = Some instB →
  touch_target (efp (clientX t) (clientY t)) = Some sq →
  touch_target (efp (clientX t') (clientY t')) = Some sq →
  lastSquareDraggedOver instA ≠ Some sq →
  lastSquareDraggedOver instB ≠ Some sq →
  dragOvers (board_touchMove efp cells A {| touches := t :: rest |}).2 = [ sq ]
  ∧ lastSquareDraggedOver
      <$> (board_touchMove efp cells A {| touches := t :: rest |}).1 !! A
    = Some (Some sq)
  ∧ (board_touchMove efp cells A {| touches := t :: rest |}).1 !! B = Some instB
  ∧ dragOvers (board_touchMove efp
                 (board_touchMove efp cells A {| touches := t :: rest |}).1
                 A {| touches := t' :: rest' |}).2 = []
  ∧ dragOvers (board_touchMove efp
                 (board_touchMove efp cells A {| touches := t :: rest |}).1
                 B {| touches := t' :: rest' |}).2 = [ sq ].
Proof.
  intros HAB HA HB Hhit Hhit' HrecA HrecB.
  unfold board_touchMove at 1 2 3 5 7. rewrite HA.
  rewrite (touchMove_new _ _ _ _ sq Hhit HrecA). simpl.
  split; [done|]. split; [by rewrite lookup_insert_eq|].
  split; [by rewrite lookup_insert_ne|]. split.
  - unfold board_touchMove. rewrite lookup_insert_eq.
    by rewrite (touchMove_same _ _ _ _ sq Hhit').
  - unfold board_touchMove. rewrite lookup_insert_ne, HB by done.
    by rewrite (touchMove_new _ _ _ _ sq Hhit' HrecB).
Qed.

Lemma drag_over_record_per_instance_witness :
  dragOvers (board_touchMove over_e4
               (board_touchMove over_e4
                  {[ "e2" := mount (Some wrapper_e4); "d2" := mount (Some wrapper_e4) ]}
                  "e2" (touch_at 300 230)).1
               "d2" (touch_at 300 230)).2 = [ "e4" ].
Proof.
  refine (proj2 (proj2 (proj2 (proj2
    (drag_over_record_per_instance over_e4
       {[ "e2" := mount (Some wrapper_e4); "d2" := mount (Some wrapper_e4) ]}
       "e2" "d2" (mount (Some wrapper_e4)) (mount (Some wrapper_e4))
       {| clientX := num_of_Z 300; clientY := num_of_Z 230 |}
       {| clientX := num_of_Z 300; clientY := num_of_Z 230 |} [] [] "e4"
       _ eq_refl eq_refl eq_refl eq_refl _ _))))); discriminate.
Defined.

(** ** Geometry tracker *)

Lemma measure_mounted (el : Node) (square : Sq) (m : gmap Sq Coords) :
  squares_run m (measure (Some el) square) = <[ square := coords_of el ]> m.
Proof. done. Qed.

Lemma deps_changed_iff (prev : option (number * Side)) (w : number) (o : Side) :
  deps_changed prev (w, o) = false ↔ prev = Some (w, o).
Proof.
  unfold deps_changed. destruct prev as [d|]; [|done].
  rewrite negb_false_iff, bool_decide_eq_true. split; congruence.
Qed.

(** C4: committing a render publishes the cell's viewport coordinates
    exactly when the cell has just mounted or the board width or the
    orientation differs from the previous commit, and the DOM node is
    mounted; the publication writes the coordinates under the cell's key
    and keeps every other entry of the map; a commit after which neither
    the width nor the orientation changed publishes nothing, whatever else
    changed in the props or the context; and without a mounted node
    nothing is published and the map stays as it is. *)
Theorem geometry_publication (inst : Instance) (props props' : SquareProps)
    (ctx ctx' : Chessboard) (m : gmap Sq Coords) :
  (∀ el, squareRef inst = Some el →
         deps_changed (effectDeps inst) (boardWidth ctx, boardOrientation ctx) = true →
         squares_run m (commit inst props ctx).2
           = <[ prop_square props := coords_of el ]> m)
  ∧ (deps_changed (effectDeps inst) (boardWidth ctx, boardOrientation ctx) = true ↔
       effectDeps inst = None
       ∨ ∃ w o, effectDeps inst = Some (w, o)
                ∧ (w ≠ boardWidth ctx ∨ o ≠ boardOrientation ctx))
  ∧ (deps_changed (effectDeps inst) (boardWidth ctx, boardOrientation ctx) = false →
       (commit inst props ctx).2 = [])
  ∧ (squareRef inst = None →
       (commit inst props ctx).2 = []
       ∧ squares_run m (commit inst props ctx).2 = m)
  ∧ (∀ k, k ≠ prop_square props →
          squares_run m (commit inst props ctx).2 !! k = m !! k)
  ∧ (boardWidth ctx' = boardWidth ctx →
     boardOrientation ctx' = boardOrientation ctx →
       (commit (commit inst props ctx).1 props' ctx').2 = []
       ∧ squares_run m (commit (commit inst props ctx).1 props' ctx').2 = m).
Proof.
  split; [|split; [|split; [|split; [|split]]]].
  - intros el Href Hrun. unfold commit. simpl. rewrite Hrun, Href.
    apply measure_mounted.
  - destruct (deps_changed _ _) eqn:Hrun.
    + split; [intros _|done].
      destruct (effectDeps inst) as [[w o]|] eqn:Hdeps; [right|by left].
      exists w, o. split; [done|].
      unfold deps_changed in Hrun. rewrite negb_true_iff, bool_decide_eq_false in Hrun.
      destruct (decide (w = boardWidth ctx)) as [->|]; [right|by left].
      intros ->. by apply Hrun.
    + apply deps_changed_iff in Hrun. split; [done|].
      intros [Hnone | (w & o & Heq & Hne)]; [congruence|].
      rewrite Hrun in Heq. injection Heq as <- <-. by destruct Hne.
  - intros Hrun. unfold commit. simpl. by rewrite Hrun.
  - intros Href. unfold commit. simpl. rewrite Href.
    by destruct (deps_changed _ _).
  - intros k Hk. unfold commit. simpl.
    destruct (deps_changed _ _); [|done].
    destruct (squareRef inst) as [el|]; [|done].
    rewrite measure_mounted. by rewrite lookup_insert_ne.
  - intros Hw Ho. unfold commit. cbn [fst snd effectDeps]. rewrite Hw, Ho.
    assert (deps_changed (Some (boardWidth ctx, boardOrientation ctx))
              (boardWidth ctx, boardOrientation ctx) = false) as ->
      by (by apply deps_changed_iff).
    done.
Qed.

Lemma geometry_publication_witness :
  squares_run {[ "d4" := coords_of cell_d4 ]}
    (commit (mount (Some wrapper_e4)) (sample_props "e4") sample_context).2
  = {[ "e4" := coords_of wrapper_e4; "d4" := coords_of cell_d4 ]}
  ∧ (commit (commit (mount (Some wrapper_e4)) (sample_props "e4") sample_context).1
       (sample_props "e4") bordered_context).2 = [].
Proof.
  destruct (geometry_publication (mount (Some wrapper_e4)) (sample_props "e4")
              (sample_props "e4") sample_context bordered_context
              {[ "d4" := coords_of cell_d4 ]})
    as (Hpublish & _ & _ & _ & _ & Hstable).
  split.
  - apply (Hpublish wrapper_e4); reflexivity.
  - apply Hstable; reflexivity.
Defined.

(** ** Style compositor *)

Lemma defaultSquareStyle_layers (ctx : Chessboard) (square : Sq) (squareColor : Side)
    (isOver : bool) :
  defaultSquareStyle ctx square squareColor true isOver
  = (if isOver then customDropSquareStyle ctx else ∅)
      ∪ (premove_layer ctx squareColor
           ∪ (base_layer ctx squareColor
                ∪ borderRadius square (boardOrientation ctx) (customBoardStyle ctx))).
Proof.
  unfold defaultSquareStyle, object_spread. simpl.
  rewrite (right_id_L ∅ (∪)).
  destruct isOver; simpl; [done|]. by rewrite (left_id_L ∅ (∪)).
Qed.

(** C2, as the code has it: for a cell whose premove flag is set, the
    style of the cell is the merge of corner rounding, base colour style,
    the premove style of the cell's colour and, while a drag hovers the
    cell, the drop style, a later layer overriding an earlier one property
    by property.  So every property the premove style defines has the
    premove value unless an active drop style redefines it, and the style
    equals the premove style when no drag hovers the cell and the premove
    style defines every property that the base style and the corner
    rounding define.  The per-cell custom styles have no part in it, and
    the style of the inner content wrapper is size and centring alone,
    whatever per-cell custom style is supplied. *)
Theorem premove_style (ctx : Chessboard) (square : Sq) (squareColor : Side)
    (isOver : bool) (styles : option (gmap Sq Style)) :
  defaultSquareStyle ctx square squareColor true isOver
    = (if isOver then customDropSquareStyle ctx else ∅)
        ∪ (premove_layer ctx squareColor
             ∪ (base_layer ctx squareColor
                  ∪ borderRadius square (boardOrientation ctx) (customBoardStyle ctx)))
  ∧ (∀ k v, premove_layer ctx squareColor !! k = Some v →
            (isOver = true → customDropSquareStyle ctx !! k = None) →
            defaultSquareStyle ctx square squareColor true isOver !! k = Some v)
  ∧ (isOver = false →
     dom (base_layer ctx squareColor) ⊆ dom (premove_layer ctx squareColor) →
     dom (borderRadius square (boardOrientation ctx) (customBoardStyle ctx))
       ⊆ dom (premove_layer ctx squareColor) →
     defaultSquareStyle ctx square squareColor true isOver
       = premove_layer ctx squareColor)
  ∧ defaultSquareStyle (with_customSquareStyles ctx styles) square squareColor true isOver
    = defaultSquareStyle ctx square squareColor true isOver
  ∧ customSquareStyle (with_customSquareStyles ctx styles) square true
    = center ∪ size (boardWidth ctx).
Proof.
  split; [apply defaultSquareStyle_layers|]. split; [|split; [|split]].
  - intros k v Hk Hdrop. rewrite defaultSquareStyle_layers.
    apply lookup_union_Some_raw. destruct isOver.
    + right. split; [by apply Hdrop|]. apply lookup_union_Some_raw. by left.
    + right. split; [apply lookup_empty|]. apply lookup_union_Some_raw. by left.
  - intros -> Hbase Hradius. rewrite defaultSquareStyle_layers.
    rewrite (left_id_L ∅ (∪)). apply map_eq. intros k.
    destruct (premove_layer ctx squareColor !! k) as [v|] eqn:Hk.
    + apply lookup_union_Some_raw. by left.
    + apply lookup_union_None. split; [done|].
      apply not_elem_of_dom in Hk.
      apply lookup_union_None. split; apply not_elem_of_dom; set_solver.
  - done.
  - unfold customSquareStyle, object_spread. simpl.
    by rewrite (right_id_L ∅ (∪)).
Qed.

Lemma premove_style_witness :
  defaultSquareStyle sample_context "e4" white true false
    = {[ "backgroundColor" := VStr "#BD2828" ]}
  ∧ defaultSquareStyle bordered_context "e4" white true true !! "backgroundColor"
    = Some (VStr "#BD2828").
Proof.
  split.
  - destruct (premove_style sample_context "e4" white false None)
      as (_ & _ & Hexact & _).
    apply Hexact; [reflexivity | | ].
    + simpl. by rewrite !dom_singleton_L.
    + replace (borderRadius "e4" (boardOrientation sample_context)
                 (customBoardStyle sample_context)) with (∅ : Style) by reflexivity.
      rewrite dom_empty_L. apply empty_subseteq.
  - destruct (premove_style bordered_context "e4" white true None)
      as (_ & Hkey & _).
    apply Hkey; reflexivity.
Defined.

(** A light cell with a premove, no drag over it, on a board whose light
    squares carry a border: the rendered style keeps the border of the
    base style, which the premove style does not define. *)
Lemma premove_keeps_base_properties :
  defaultSquareStyle bordered_context "e4" white true false
    = {[ "backgroundColor" := VStr "#BD2828"; "border" := VStr "1px solid #888" ]}
  ∧ premove_layer bordered_context white = {[ "backgroundColor" := VStr "#BD2828" ]}
  ∧ defaultSquareStyle bordered_context "e4" white true false !! "border"
    = Some (VStr "1px solid #888")
  ∧ premove_layer bordered_context white !! "border" = None.
Proof.
  split; [|split; [|split]]; reflexivity.
Qed.

(** * Further properties of the cell *)

(** ** Corner rounding *)

(** X1: turning the board round swaps the corners diagonally: a corner
    cell gets under one orientation the rounding its diagonal opposite
    gets under the other, whatever the board style. *)
Theorem borderRadius_rotation (cbs : option Style) :
  borderRadius "a1" white cbs = borderRadius "h8" black cbs
  ∧ borderRadius "a8" white cbs = borderRadius "h1" black cbs
  ∧ borderRadius "h1" white cbs = borderRadius "a8" black cbs
  ∧ borderRadius "h8" white cbs = borderRadius "a1" black cbs.
Proof.
  unfold borderRadius.
  destruct (board_borderRadius cbs) as [v|]; [|done].
  by destruct (truthy v).
Qed.

(** X2: with a board radius configured, the four corners get four
    different roundings under one orientation: two different corner cells
    never get the same rounding style. *)
Theorem borderRadius_corners_distinct (cbs : option Style) (o : BoardOrientation)
    (s1 s2 : Sq) :
  has_borderRadius cbs = true →
  s1 ∈ corners →
  s2 ∈ corners →
  s1 ≠ s2 →
  borderRadius s1 o cbs ≠ borderRadius s2 o cbs.
Proof.
  unfold has_borderRadius.
  destruct (board_borderRadius cbs) as [v|] eqn:Hr; [|done].
  intros Ht H1 H2 Hne.
  rewrite (borderRadius_corner cbs v Hr Ht s1 o H1).
  rewrite (borderRadius_corner cbs v Hr Ht s2 o H2).
  intros Hk%singleton_style_key_inj. revert H1 H2 Hne Hk.
  unfold corners. rewrite !elem_of_cons, !elem_of_nil.
  intros [-> | [-> | [-> | [-> | []]]]] [-> | [-> | [-> | [-> | []]]]] Hne;
    destruct o; simpl; intros Hk; (done || discriminate Hk).
Qed.

Lemma borderRadius_corners_distinct_witness :
  borderRadius "a1" black (Some {[ "borderRadius" := VStr "5px" ]})
  ≠ borderRadius "h1" black (Some {[ "borderRadius" := VStr "5px" ]}).
Proof.
  apply (borderRadius_corners_distinct
           (Some {[ "borderRadius" := VStr "5px" ]}) black "a1" "h1").
  - reflexivity.
  - unfold corners. set_solver.
  - unfold corners. set_solver.
  - discriminate.
Defined.

(** X3: the lookup sets nothing but a corner's rounding: a property of
    its result belongs to a corner cell, is one of the four rounding
    properties, and carries the truthy board-level radius. *)
Theorem borderRadius_only_rounds (square : Sq) (o : BoardOrientation)
    (cbs : option Style) (k : string) (v : StyleVal) :
  borderRadius square o cbs !! k = Some v →
  square ∈ corners
  ∧ k = corner_property square o
  ∧ k ∈ radius_properties
  ∧ board_borderRadius cbs = Some v
  ∧ truthy v = true.
Proof.
  intros Hk.
  destruct (has_borderRadius cbs) eqn:Hhas;
    [|by rewrite (borderRadius_no_radius square o cbs Hhas), lookup_empty in Hk].
  destruct (decide (square ∈ corners)) as [Hc|Hc];
    [|by rewrite (borderRadius_not_corner square o cbs Hc), lookup_empty in Hk].
  unfold has_borderRadius in Hhas.
  destruct (board_borderRadius cbs) as [r|] eqn:Hr; [|done].
  rewrite (borderRadius_corner cbs r Hr Hhas square o Hc) in Hk.
  apply lookup_singleton_Some in Hk as [<- <-].
  repeat split; try done.
  revert Hc. unfold corners, radius_properties.
  rewrite !elem_of_cons, !elem_of_nil.
  intros [-> | [-> | [-> | [-> | []]]]]; destruct o; simpl; set_solver.
Qed.

Lemma borderRadius_only_rounds_witness :
  "a8" ∈ corners
  ∧ "borderBottomRightRadius" = corner_property "a8" black
  ∧ "borderBottomRightRadius" ∈ radius_properties
  ∧ board_borderRadius (Some {[ "borderRadius" := VStr "5px" ]}) = Some (VStr "5px")
  ∧ truthy (VStr "5px") = true.
Proof.
  apply (borderRadius_only_rounds "a8" black
           (Some {[ "borderRadius" := VStr "5px" ]})).
  reflexivity.
Defined.

(** ** Style compositor *)

Lemma defaultSquareStyle_union (ctx : Chessboard) (square : Sq) (squareColor : Side)
    (squareHasPremove isOver : bool) :
  defaultSquareStyle ctx square squareColor squareHasPremove isOver
  = (if isOver then customDropSquareStyle ctx else ∅)
      ∪ ((if squareHasPremove then premove_layer ctx squareColor else ∅)
           ∪ (base_layer ctx squareColor
                ∪ borderRadius square (boardOrientation ctx) (customBoardStyle ctx))).
Proof.
  unfold defaultSquareStyle, object_spread.
  destruct squareHasPremove, isOver; simpl;
    rewrite ?(right_id_L ∅ (∪)), ?(left_id_L ∅ (∪)); reflexivity.
Qed.

Lemma option_union_Some_l {A} (v : A) (o : option A) : Some v ∪ o = Some v.
Proof. by destruct o. Qed.

(** X4: the layers of the cell style take precedence property by
    property in the order drop-hover, premove, base colour, corner
    rounding, and a layer whose flag is off contributes nothing: a
    property the drop style defines has the drop value while a drag
    hovers the cell, a property of the base style shows unless an active
    premove or drop style redefines it, and with both flags off the style
    is the base style over the corner rounding. *)
Theorem defaultSquareStyle_precedence (ctx : Chessboard) (square : Sq)
    (squareColor : Side) (squareHasPremove isOver : bool) (k : string) :
  defaultSquareStyle ctx square squareColor squareHasPremove isOver !! k
  = (if isOver then customDropSquareStyle ctx !! k else None)
      ∪ ((if squareHasPremove then premove_layer ctx squareColor !! k else None)
           ∪ (base_layer ctx squareColor !! k
                ∪ borderRadius square (boardOrientation ctx) (customBoardStyle ctx) !! k))
  ∧ (∀ v, isOver = true →
          customDropSquareStyle ctx !! k = Some v →
          defaultSquareStyle ctx square squareColor squareHasPremove isOver !! k = Some v)
  ∧ (∀ v, base_layer ctx squareColor !! k = Some v →
          (isOver = true → customDropSquareStyle ctx !! k = None) →
          (squareHasPremove = true → premove_layer ctx squareColor !! k = None) →
          defaultSquareStyle ctx square squareColor squareHasPremove isOver !! k = Some v)
  ∧ defaultSquareStyle ctx square squareColor false false
    = base_layer ctx squareColor
        ∪ borderRadius square (boardOrientation ctx) (customBoardStyle ctx).
Proof.
  assert (defaultSquareStyle ctx square squareColor squareHasPremove isOver !! k
          = (if isOver then customDropSquareStyle ctx !! k else None)
              ∪ ((if squareHasPremove then premove_layer ctx squareColor !! k else None)
                   ∪ (base_layer ctx squareColor !! k
                        ∪ borderRadius square (boardOrientation ctx)
                            (customBoardStyle ctx) !! k))) as Hlookup.
  { rewrite defaultSquareStyle_union, !lookup_union.
    destruct squareHasPremove, isOver; rewrite ?lookup_empty; reflexivity. }
  split; [exact Hlookup|]. split; [|split].
  - intros v -> Hdrop. rewrite Hlookup, Hdrop. apply option_union_Some_l.
  - intros v Hbase Hdrop Hpremove. rewrite Hlookup, Hbase.
    rewrite (option_union_Some_l v).
    destruct isOver; [rewrite Hdrop by done|];
      (destruct squareHasPremove; [rewrite Hpremove by done|]); reflexivity.
  - rewrite defaultSquareStyle_union.
    by rewrite !(left_id_L ∅ (∪)).
Qed.

Lemma defaultSquareStyle_precedence_witness :
  defaultSquareStyle bordered_context "e4" white true true !! "boxShadow"
    = Some (VStr "inset 0 0 1px 6px rgba(255,255,255,0.75)")
  ∧ defaultSquareStyle bordered_context "e4" white true true !! "border"
    = Some (VStr "1px solid #888").
Proof.
  split.
  - destruct (defaultSquareStyle_precedence bordered_context "e4" white true true
                "boxShadow") as (_ & Hdrop & _).
    apply Hdrop; reflexivity.
  - destruct (defaultSquareStyle_precedence bordered_context "e4" white true true
                "border") as (_ & _ & Hbase & _).
    apply Hbase; reflexivity.
Defined.

Lemma wrapper_base_lookup (w : number) (k : string) :
  k ∈ wrapper_properties → is_Some ((center ∪ size w) !! k).
Proof.
  unfold wrapper_properties, center, size.
  rewrite !elem_of_union, !elem_of_singleton.
  intros [[[-> | ->] | ->] | ->];
    rewrite lookup_union; simplify_map_eq; eauto.
Qed.

(** X5: the style of the content wrapper always defines width, height,
    display and justifyContent.  Without a premove and with a custom
    style registered for this cell, each property of the custom style
    overrides the wrapper's own and every other property stays as sizing
    and centring give it; when no custom style is registered for this
    cell (none at all, or only for other cells) the style is sizing and
    centring alone. *)
Theorem customSquareStyle_layers (ctx : Chessboard) (square : Sq)
    (squareHasPremove : bool) :
  wrapper_properties ⊆ dom (customSquareStyle ctx square squareHasPremove)
  ∧ (∀ custom, squareHasPremove = false →
               customSquareStyles ctx ≫= (λ m, m !! square) = Some custom →
               customSquareStyle ctx square squareHasPremove
                 = custom ∪ (center ∪ size (boardWidth ctx))
               ∧ (∀ k v, custom !! k = Some v →
                         customSquareStyle ctx square squareHasPremove !! k = Some v)
               ∧ (∀ k, custom !! k = None →
                       customSquareStyle ctx square squareHasPremove !! k
                       = (center ∪ size (boardWidth ctx)) !! k))
  ∧ (customSquareStyles ctx ≫= (λ m, m !! square) = None →
       customSquareStyle ctx square squareHasPremove
       = center ∪ size (boardWidth ctx)).
Proof.
  assert (∀ o, object_spread [ Some (size (boardWidth ctx)); Some center; o ]
               = match o with
                 | Some c => c ∪ (center ∪ size (boardWidth ctx))
                 | None => center ∪ size (boardWidth ctx)
                 end) as Hspread.
  { intros [c|]; unfold object_spread; simpl; by rewrite (right_id_L ∅ (∪)). }
  unfold customSquareStyle. rewrite Hspread. split; [|split].
  - intros k Hk. apply elem_of_dom.
    pose proof (wrapper_base_lookup (boardWidth ctx) k Hk) as [v Hv].
    destruct (and_style _ _) as [c|]; [|by eauto].
    rewrite lookup_union. rewrite Hv. destruct (c !! k); by eauto.
  - intros custom -> Hcustom. simpl. rewrite Hcustom.
    split; [done|]. split.
    + intros k v Hk. apply lookup_union_Some_raw. by left.
    + intros k Hk. rewrite lookup_union, Hk. by rewrite (left_id_L None (∪)).
  - intros ->. by destruct squareHasPremove.
Qed.

Lemma customSquareStyle_layers_witness :
  customSquareStyle bordered_context "e4" false !! "backgroundColor"
    = Some (VStr "yellow")
  ∧ customSquareStyle bordered_context "d4" false
    = center ∪ size (boardWidth bordered_context).
Proof.
  split.
  - destruct (customSquareStyle_layers bordered_context "e4" false)
      as (_ & Hcustom & _).
    destruct (Hcustom {[ "backgroundColor" := VStr "yellow" ]})
      as (_ & Hkey & _); [reflexivity | reflexivity |].
    apply Hkey. reflexivity.
  - destruct (customSquareStyle_layers bordered_context "d4" false)
      as (_ & _ & Hnone).
    apply Hnone. reflexivity.
Defined.

(** ** The rendered element and the hit-test *)

(** X6: the outer [div] a cell renders carries the cell's identity, so a
    hit-test that finds this [div] below untagged elements only (the piece,
    the content wrapper) resolves to the cell, and a touch-move over it
    on a freshly mounted cell records the cell and signals one drag-over
    for it.  The identity has to be a non-empty string. *)
Theorem rendered_cell_hit (ctx : Chessboard) (CustomSquare : CustomSquareRenderer)
    (props : SquareProps) (isOver : bool) (id : nat) (rect : DOMRect)
    (children above below : list Node)
    (efp : number → number → list Node) (t : Touch) (rest : list Touch)
    (ref : option Node) :
  prop_square props ≠ "" →
  Forall untagged above →
  efp (clientX t) (clientY t)
    = above ++ div_node (render ctx CustomSquare props isOver) id rect children :: below →
  getAttribute (div_node (render ctx CustomSquare props isOver) id rect children)
    "data-square" = Some (prop_square props)
  ∧ touch_target (efp (clientX t) (clientY t)) = Some (prop_square props)
  ∧ (touchMove efp (mount ref) {| touches := t :: rest |}).2
    = [ setLastSquareDraggedOver (prop_square props);
        onDragOverSquare (prop_square props) ].
Proof.
  intros Hne Habove Hhit.
  assert (getAttribute (div_node (render ctx CustomSquare props isOver) id rect children)
            "data-square" = Some (prop_square props)) as Hattr.
  { unfold getAttribute, div_node, render. simpl. by simplify_map_eq. }
  assert (touch_target (efp (clientX t) (clientY t)) = Some (prop_square props))
    as Htarget.
  { apply touch_target_topmost. eexists above, _, below.
    repeat split; [exact Hhit | exact Habove | exact Hattr |].
    by destruct (prop_square props). }
  split; [done|]. split; [done|].
  by rewrite (touchMove_new _ _ _ _ _ Htarget).
Qed.

Lemma rendered_cell_hit_witness :
  touch_target
    [ piece_e4; wrapper_e4;
      div_node (render sample_context (TagName "div") (sample_props "e4") false)
        1 sample_rect [ wrapper_e4 ] ]
  = Some "e4".
Proof.
  refine (proj1 (proj2
    (rendered_cell_hit sample_context (TagName "div") (sample_props "e4") false
       1 sample_rect [ wrapper_e4 ] [ piece_e4; wrapper_e4 ] []
       (λ _ _, [ piece_e4; wrapper_e4;
                 div_node (render sample_context (TagName "div") (sample_props "e4") false)
                   1 sample_rect [ wrapper_e4 ] ])
       {| clientX := num_of_Z 300; clientY := num_of_Z 230 |} [] None
       _ _ eq_refl))).
  - discriminate.
  - repeat constructor.
Defined.

(** ** Gesture router: mouse *)

(** X7: a mouse-over extends the arrow exactly when the secondary button
    alone is held and a (non-empty) right-click-down origin is on record,
    and it does so before, and whether or not, the hover-enter is
    signalled: the guard against events from inside the cell does not
    apply to the arrow. *)
Theorem onMouseOver_arrow (ctx : Chessboard) (square : Sq) (e : MouseEvent)
    (origin : Sq) :
  (drawNewArrow origin square ∈ onMouseOver ctx square e ↔
     buttons e = 2%Z ∧ currentRightClickDown ctx = Some origin ∧ origin ≠ "")
  ∧ (buttons e = 2%Z → currentRightClickDown ctx = Some origin → origin ≠ "" →
       onMouseOver ctx square e
       = drawNewArrow origin square
           :: (if from_inside e then [] else [ onMouseOverSquare square ]))
  ∧ (buttons e ≠ 2%Z ∨ currentRightClickDown ctx = None →
       onMouseOver ctx square e
       = if from_inside e then [] else [ onMouseOverSquare square ]).
Proof.
  unfold onMouseOver. split; [|split].
  - rewrite elem_of_app. split.
    + intros [Harrow | Hhover].
      * destruct (currentRightClickDown ctx) as [o|]; [|by apply elem_of_nil in Harrow].
        destruct (Z.eqb_spec (buttons e) 2) as [Hb|Hb]; simpl in Harrow;
          [|by apply elem_of_nil in Harrow].
        destruct o as [|a o]; simpl in Harrow; [by apply elem_of_nil in Harrow|].
        apply list_elem_of_singleton in Harrow. injection Harrow as ->.
        by repeat split.
      * destruct (from_inside e); [by apply elem_of_nil in Hhover|].
        apply list_elem_of_singleton in Hhover. discriminate.
    + intros (Hb & -> & Hne). left. rewrite Hb. simpl.
      destruct origin; [done|]. by apply list_elem_of_singleton.
  - intros -> -> Hne. simpl. by destruct origin.
  - intros [Hb | ->]; [|done].
    destruct (currentRightClickDown ctx) as [o|]; [|done].
    by destruct (Z.eqb_spec (buttons e) 2).
Qed.

Lemma onMouseOver_arrow_witness :
  onMouseOver (with_currentRightClickDown sample_context (Some "e2")) "e4"
    (mouse_event 0 2 (Some piece_e4) cell_e4)
  = [ drawNewArrow "e2" "e4" ].
Proof.
  apply (onMouseOver_arrow (with_currentRightClickDown sample_context (Some "e2"))
           "e4" (mouse_event 0 2 (Some piece_e4) cell_e4) "e2").
  - reflexivity.
  - reflexivity.
  - discriminate.
Defined.

(** X8: the mouse-down and mouse-up handlers act on the secondary button
    only: with any other button they call nothing; a mouse-up calls
    nothing but the right-click-up of its own cell and an arrow-finalize
    from the recorded origin to its own cell; and without a recorded
    origin a secondary-button mouse-up is the right-click-up alone. *)
Theorem mouse_buttons_secondary_only (ctx : Chessboard) (square : Sq)
    (e : MouseEvent) :
  (button e ≠ 2%Z → onMouseDown square e = [] ∧ onMouseUp ctx square e = [])
  ∧ (∀ c, c ∈ onMouseUp ctx square e →
          button e = 2%Z
          ∧ (c = onRightClickUp square
             ∨ ∃ origin, currentRightClickDown ctx = Some origin
                         ∧ origin ≠ ""
                         ∧ c = onArrowDrawEnd origin square))
  ∧ (button e = 2%Z → currentRightClickDown ctx = None →
       onMouseUp ctx square e = [ onRightClickUp square ]).
Proof.
  unfold onMouseDown, onMouseUp. split; [|split].
  - intros Hb. by destruct (Z.eqb_spec (button e) 2).
  - intros c Hc. destruct (Z.eqb_spec (button e) 2) as [Hb|Hb];
      [|by apply elem_of_nil in Hc].
    split; [done|]. apply elem_of_app in Hc as [Hc | Hc].
    + destruct (currentRightClickDown ctx) as [o|]; [|by apply elem_of_nil in Hc].
      destruct o as [|a o]; simpl in Hc; [by apply elem_of_nil in Hc|].
      apply list_elem_of_singleton in Hc. right. by exists (String a o).
    + apply list_elem_of_singleton in Hc. by left.
  - by intros -> ->.
Qed.

Lemma mouse_buttons_secondary_only_witness :
  onMouseDown "e4" (mouse_event 0 1 None cell_e4) = []
  ∧ onMouseUp (with_currentRightClickDown sample_context (Some "e2")) "e4"
      (mouse_event 0 1 None cell_e4) = [].
Proof.
  apply (mouse_buttons_secondary_only
           (with_currentRightClickDown sample_context (Some "e2")) "e4"
           (mouse_event 0 1 None cell_e4)).
  discriminate.
Defined.

(** ** Gesture router: touch *)

(** X9: a touch-move without any touch point fails (reading [clientX] of
    [undefined]) before any call is made, and this is the only way the
    handler fails; the cell's instance is then left as it was. *)
Theorem onTouchMove_without_touch (efp : number → number → list Node)
    (inst : Instance) (e : TouchEvent) :
  (onTouchMove efp (lastSquareDraggedOver inst) e = None ↔ touches e = [])
  ∧ (touches e = [] → touchMove efp inst e = (inst, [])).
Proof.
  unfold touchMove, onTouchMove. split.
  - destruct (touches e) as [|t rest]; [done|].
    destruct (touch_target _) as [sq|]; [|done].
    by destruct (truthy_str sq && _).
  - by intros ->.
Qed.

Lemma onTouchMove_without_touch_witness :
  touchMove over_e4 (mount None) {| touches := [] |} = (mount None, []).
Proof.
  apply (onTouchMove_without_touch over_e4 (mount None) {| touches := [] |}).
  reflexivity.
Defined.

Lemma touchMove_cases (efp : number → number → list Node) (inst : Instance)
    (e : TouchEvent) :
  touchMove efp inst e = (inst, [])
  ∨ ∃ sq, sq ≠ ""
          ∧ lastSquareDraggedOver inst ≠ Some sq
          ∧ touchMove efp inst e
            = ({| lastSquareDraggedOver := Some sq;
                  squareRef := squareRef inst;
                  effectDeps := effectDeps inst |},
               [ setLastSquareDraggedOver sq; onDragOverSquare sq ]).
Proof.
  unfold touchMove, onTouchMove.
  destruct (touches e) as [|t rest]; [by left|].
  destruct (touch_target _) as [sq|]; [|by left].
  destruct sq as [|a sq]; [by left|]. simpl.
  case_bool_decide as Hrec; [by left|].
  right. exists (String a sq). repeat split; [done|congruence].
Qed.

(** X10: whatever a touch-move does, it either calls nothing and leaves
    the instance alone, or it records one cell and signals the drag-over
    for that same cell, in this order; the cell is a non-empty string
    other than the one on record, and the ref and the effect's
    dependencies of the instance are never touched. *)
Theorem touchMove_record_and_signal (efp : number → number → list Node)
    (inst : Instance) (e : TouchEvent) :
  (touchMove efp inst e = (inst, [])
   ∨ ∃ sq, sq ≠ ""
           ∧ lastSquareDraggedOver inst ≠ Some sq
           ∧ lastSquareDraggedOver (touchMove efp inst e).1 = Some sq
           ∧ (touchMove efp inst e).2
             = [ setLastSquareDraggedOver sq; onDragOverSquare sq ])
  ∧ squareRef (touchMove efp inst e).1 = squareRef inst
  ∧ effectDeps (touchMove efp inst e).1 = effectDeps inst.
Proof.
  destruct (touchMove_cases efp inst e) as [-> | (sq & Hne & Hrec & ->)].
  - split; [by left | done].
  - split; [right; by exists sq | done].
Qed.

Lemma dragOvers_app (l1 l2 : list Call) :
  dragOvers (l1 ++ l2) = dragOvers l1 ++ dragOvers l2.
Proof. apply omap_app. Qed.

Lemma rerender_after_each_cons (ev : (number → number → list Node) * TouchEvent)
    (events : list ((number → number → list Node) * TouchEvent)) (inst : Instance) :
  touch_run inst (rerender_after_each (ev :: events))
  = {| current := current (touch_run (touchMove ev.1 inst ev.2).1
                             (rerender_after_each events));
       queued := queued (touch_run (touchMove ev.1 inst ev.2).1
                           (rerender_after_each events));
       made := (touchMove ev.1 inst ev.2).2
                 ++ made (touch_run (touchMove ev.1 inst ev.2).1
                            (rerender_after_each events)) |}.
Proof. apply touch_run_event_rerender. Qed.

(** X11: when the cell re-renders after every touch-move, then over any
    run of touch-move events delivered to one cell instance no drag-over
    is signalled twice in a row for the same cell: each signalled cell
    differs from the one signalled before it, the first from the record
    the run started with; and the record after the run is the last cell
    signalled, or the initial record when nothing was signalled. *)
Theorem rerendered_touches_never_repeat
    (events : list ((number → number → list Node) * TouchEvent)) (inst : Instance) :
  steps_apart (lastSquareDraggedOver inst)
    (dragOvers (made (touch_run inst (rerender_after_each events))))
  ∧ lastSquareDraggedOver (current (touch_run inst (rerender_after_each events)))
    = match last (dragOvers (made (touch_run inst (rerender_after_each events)))) with
      | Some sq => Some sq
      | None => lastSquareDraggedOver inst
      end.
Proof.
  revert inst. induction events as [|ev events IH]; intros inst; [done|].
  rewrite rerender_after_each_cons. cbn [current made]. rewrite dragOvers_app.
  destruct (touchMove_cases ev.1 inst ev.2) as [-> | (sq & Hne & Hrec & ->)].
  - apply IH.
  - cbn [fst snd]. simpl.
    destruct (IH {| lastSquareDraggedOver := Some sq; squareRef := squareRef inst;
                    effectDeps := effectDeps inst |}) as [Hsteps Hlast].
    simpl in Hsteps, Hlast. split; [done|].
    rewrite Hlast.
    destruct (dragOvers _) as [|s l]; [done|]. rewrite !last_cons.
    by destruct (last l).
Qed.

(** X12: when the cell re-renders after every touch-move, a run of
    touch-moves that all resolve to one cell, delivered to an instance
    whose record is not that cell, signals exactly one drag-over, however
    long the run is, and leaves that cell on record. *)
Theorem rerendered_touches_same_cell
    (events : list ((number → number → list Node) * TouchEvent)) (inst : Instance)
    (sq : Sq) :
  events ≠ [] →
  Forall (λ ev, resolves_to ev sq) events →
  lastSquareDraggedOver inst ≠ Some sq →
  dragOvers (made (touch_run inst (rerender_after_each events))) = [ sq ]
  ∧ lastSquareDraggedOver (current (touch_run inst (rerender_after_each events)))
    = Some sq.
Proof.
  assert (∀ evs i, Forall (λ ev, resolves_to ev sq) evs →
                   lastSquareDraggedOver i = Some sq →
                   touch_run i (rerender_after_each evs)
                   = {| current := i; queued := []; made := [] |}) as Hquiet.
  { induction evs as [|[efp e] evs IH]; intros i Hall Hrec; [done|].
    apply Forall_cons in Hall as [(t & rest & Ht & Hhit) Hall].
    rewrite rerender_after_each_cons. simpl in *.
    destruct e as [ts]. simpl in Ht. subst ts.
    rewrite (touchMove_same _ _ _ _ sq Hhit Hrec). simpl.
    by rewrite (IH i Hall Hrec). }
  destruct events as [|[efp e] events]; [done|].
  intros _ Hall Hrec.
  apply Forall_cons in Hall as [(t & rest & Ht & Hhit) Hall].
  rewrite rerender_after_each_cons. simpl in *.
  destruct e as [ts]. simpl in Ht. subst ts.
  rewrite (touchMove_new _ _ _ _ sq Hhit Hrec). simpl.
  by rewrite (Hquiet events
                {| lastSquareDraggedOver := Some sq; squareRef := squareRef inst;
                   effectDeps := effectDeps inst |} Hall eq_refl).
Qed.

Lemma rerendered_touches_same_cell_witness :
  dragOvers (made (touch_run (mount None)
                     (rerender_after_each
                        [ (over_e4, touch_at 300 230); (over_e4, touch_at 301 230);
                          (over_e4, touch_at 302 231) ]))) = [ "e4" ].
Proof.
  refine (proj1 (rerendered_touches_same_cell
                   [ (over_e4, touch_at 300 230); (over_e4, touch_at 301 230);
                     (over_e4, touch_at 302 231) ] (mount None) "e4" _ _ _)).
  - discriminate.
  - repeat constructor; eexists _, _; split; reflexivity.
  - discriminate.
Defined.

Lemma within_one_render_steps
    (events : list ((number → number → list Node) * TouchEvent)) (inst : Instance)
    (sq : Sq) (q m : list Call) :
  Forall (λ ev, resolves_to ev sq) events →
  lastSquareDraggedOver inst ≠ Some sq →
  touch_steps {| current := inst; queued := q; made := m |} (within_one_render events)
  = {| current := inst;
       queued := q ++ flat_map (λ _, [ setLastSquareDraggedOver sq;
                                       onDragOverSquare sq ]) events;
       made := m ++ flat_map (λ _, [ setLastSquareDraggedOver sq;
                                     onDragOverSquare sq ]) events |}.
Proof.
  intros Hall Hrec. unfold touch_steps. revert q m.
  induction events as [|[efp e] events IH]; intros q m; simpl.
  - by rewrite !app_nil_r.
  - apply Forall_cons in Hall as [(t & rest & Ht & Hhit) Hall].
    destruct e as [ts]. simpl in Ht. subst ts.
    rewrite (onTouchMove_new _ _ _ _ sq Hhit Hrec).
    rewrite (IH Hall). simpl. by rewrite <- !app_assoc.
Qed.

(** X19: touch-moves handled by one render are not deduplicated against
    each other: each compares with the record that render read, so a run
    of touch-moves that all resolve to one cell other than that record,
    with no re-render in between, signals one drag-over per event and
    leaves the record the handlers read as it was; the re-render that
    follows a non-empty run puts the cell on record. *)
Theorem same_render_touches_all_signal
    (events : list ((number → number → list Node) * TouchEvent)) (inst : Instance)
    (sq : Sq) :
  Forall (λ ev, resolves_to ev sq) events →
  lastSquareDraggedOver inst ≠ Some sq →
  dragOvers (made (touch_run inst (within_one_render events)))
    = replicate (List.length events) sq
  ∧ current (touch_run inst (within_one_render events)) = inst
  ∧ (events ≠ [] →
     lastSquareDraggedOver
       (current (touch_run inst (within_one_render events ++ [ rerender ])))
     = Some sq).
Proof.
  intros Hall Hrec. unfold touch_run.
  assert (∀ evs : list ((number → number → list Node) * TouchEvent),
            dragOvers (flat_map (λ _, [ setLastSquareDraggedOver sq;
                                        onDragOverSquare sq ]) evs)
            = replicate (List.length evs) sq) as Hsignals
    by (induction evs as [|ev evs IH]; [done | simpl; by rewrite <- IH]).
  assert (∀ (evs : list ((number → number → list Node) * TouchEvent)) i,
            lastSquareDraggedOver i = Some sq →
            lastSquareDraggedOver
              (fold_left local_step
                 (flat_map (λ _, [ setLastSquareDraggedOver sq;
                                   onDragOverSquare sq ]) evs) i)
            = Some sq) as Hrecord
    by (induction evs as [|ev evs IH]; intros i Hi; [done | simpl; by apply IH]).
  split; [|split].
  - rewrite (within_one_render_steps events inst sq [] [] Hall Hrec).
    apply Hsignals.
  - by rewrite (within_one_render_steps events inst sq [] [] Hall Hrec).
  - intros Hne. unfold touch_steps. rewrite fold_left_app.
    fold (touch_steps {| current := inst; queued := []; made := [] |}
            (within_one_render events)).
    rewrite (within_one_render_steps events inst sq [] [] Hall Hrec). simpl.
    destruct events as [|ev events]; [done|]. simpl. by apply Hrecord.
Qed.

Lemma same_render_touches_all_signal_witness :
  dragOvers (made (touch_run (mount None)
                     (within_one_render
                        [ (over_e4, touch_at 300 230); (over_e4, touch_at 301 230);
                          (over_e4, touch_at 302 231) ])))
  = [ "e4"; "e4"; "e4" ].
Proof.
  refine (proj1 (same_render_touches_all_signal
                   [ (over_e4, touch_at 300 230); (over_e4, touch_at 301 230);
                     (over_e4, touch_at 302 231) ] (mount None) "e4" _ _)).
  - repeat constructor; eexists _, _; split; reflexivity.
  - discriminate.
Defined.

(** ** Geometry tracker *)

Lemma commit_calls_cases (inst : Instance) (props : SquareProps) (ctx : Chessboard) :
  (commit inst props ctx).2 = []
  ∨ ∃ el, squareRef inst = Some el
          ∧ (commit inst props ctx).2 = measure (Some el) (prop_square props).
Proof.
  unfold commit. simpl. destruct (deps_changed _ _); [|by left].
  destruct (squareRef inst) as [el|]; [right; by exists el | by left].
Qed.

Lemma squares_run_app (m : gmap Sq Coords) (l1 l2 : list Call) :
  squares_run m (l1 ++ l2) = squares_run (squares_run m l1) l2.
Proof. apply fold_left_app. Qed.

(** X13: the publications of two different cells do not disturb each
    other: in either order they leave the same map, and each cell's entry
    is what that cell's own publication alone would have left. *)
Theorem publications_commute (instA instB : Instance) (propsA propsB : SquareProps)
    (ctxA ctxB : Chessboard) (m : gmap Sq Coords) :
  prop_square propsA ≠ prop_square propsB →
  squares_run m ((commit instA propsA ctxA).2 ++ (commit instB propsB ctxB).2)
    = squares_run m ((commit instB propsB ctxB).2 ++ (commit instA propsA ctxA).2)
  ∧ squares_run m ((commit instA propsA ctxA).2 ++ (commit instB propsB ctxB).2)
      !! prop_square propsA
    = squares_run m (commit instA propsA ctxA).2 !! prop_square propsA
  ∧ squares_run m ((commit instA propsA ctxA).2 ++ (commit instB propsB ctxB).2)
      !! prop_square propsB
    = squares_run m (commit instB propsB ctxB).2 !! prop_square propsB.
Proof.
  intros Hne. rewrite !squares_run_app.
  destruct (commit_calls_cases instA propsA ctxA) as [-> | (elA & _ & ->)];
    destruct (commit_calls_cases instB propsB ctxB) as [-> | (elB & _ & ->)];
    rewrite ?measure_mounted; simpl; try done.
  - split; [done|]. split; [by rewrite lookup_insert_ne | done].
  - split; [done|]. split; [done | by rewrite lookup_insert_ne].
  - split; [by apply insert_insert_ne|].
    split.
    + by rewrite lookup_insert_ne, !lookup_insert_eq.
    + by rewrite !lookup_insert_eq.
Qed.

Lemma publications_commute_witness :
  squares_run ∅
    ((commit (mount (Some wrapper_e4)) (sample_props "e4") sample_context).2
       ++ (commit (mount (Some cell_d4)) (sample_props "d4") sample_context).2)
  = squares_run ∅
      ((commit (mount (Some cell_d4)) (sample_props "d4") sample_context).2
         ++ (commit (mount (Some wrapper_e4)) (sample_props "e4") sample_context).2).
Proof.
  refine (proj1 (publications_commute (mount (Some wrapper_e4)) (mount (Some cell_d4))
                   (sample_props "e4") (sample_props "d4")
                   sample_context sample_context ∅ _)).
  discriminate.
Defined.

(** X14: a publication never removes an entry of the geometry map and
    adds at most the key of its own cell, and a later publication of the
    same cell replaces the coordinates of the earlier one. *)
Theorem publication_touches_own_key (inst inst' : Instance) (props : SquareProps)
    (ctx ctx' : Chessboard) (m : gmap Sq Coords) :
  dom m ⊆ dom (squares_run m (commit inst props ctx).2)
  ∧ dom (squares_run m (commit inst props ctx).2) ⊆ {[ prop_square props ]} ∪ dom m
  ∧ (∀ el', squareRef inst' = Some el' →
            deps_changed (effectDeps inst') (boardWidth ctx', boardOrientation ctx') = true →
            squares_run (squares_run m (commit inst props ctx).2)
              (commit inst' props ctx').2
            = <[ prop_square props := coords_of el' ]> m).
Proof.
  split; [|split].
  - destruct (commit_calls_cases inst props ctx) as [-> | (el & _ & ->)]; [done|].
    rewrite measure_mounted, dom_insert_L. set_solver.
  - destruct (commit_calls_cases inst props ctx) as [-> | (el & _ & ->)];
      [simpl; set_solver|].
    by rewrite measure_mounted, dom_insert_L.
  - intros el' Href Hrun.
    assert ((commit inst' props ctx').2 = measure (Some el') (prop_square props)) as ->
      by (unfold commit; simpl; by rewrite Hrun, Href).
    rewrite measure_mounted.
    destruct (commit_calls_cases inst props ctx) as [-> | (el & _ & ->)]; [done|].
    rewrite measure_mounted. apply insert_insert_eq.
Qed.

Lemma publication_touches_own_key_witness :
  squares_run
    (squares_run ∅ (commit (mount (Some cell_d4)) (sample_props "e4") sample_context).2)
    (commit (mount (Some wrapper_e4)) (sample_props "e4") bordered_context).2
  = {[ "e4" := coords_of wrapper_e4 ]}.
Proof.
  destruct (publication_touches_own_key (mount (Some cell_d4)) (mount (Some wrapper_e4))
              (sample_props "e4") sample_context bordered_context ∅)
    as (_ & _ & Hagain).
  apply (Hagain wrapper_e4); reflexivity.
Defined.

Lemma commit_all_acc (renders : list (SquareProps * Chessboard)) (inst : Instance)
    (acc : list Call) :
  fold_left (λ acc r,
               let c := commit acc.1 r.1 r.2 in
               (c.1, acc.2 ++ c.2))
            renders (inst, acc)
  = ((commit_all inst renders).1, acc ++ (commit_all inst renders).2).
Proof.
  unfold commit_all. revert inst acc.
  induction renders as [|r renders IH]; intros inst acc; simpl.
  - by rewrite app_nil_r.
  - rewrite IH. rewrite (IH _ (commit inst r.1 r.2).2).
    simpl. by rewrite app_assoc.
Qed.

Lemma commit_all_cons (r : SquareProps * Chessboard)
    (renders : list (SquareProps * Chessboard)) (inst : Instance) :
  commit_all inst (r :: renders)
  = ((commit_all (commit inst r.1 r.2).1 renders).1,
     (commit inst r.1 r.2).2 ++ (commit_all (commit inst r.1 r.2).1 renders).2).
Proof. unfold commit_all at 1. simpl. apply commit_all_acc. Qed.

Lemma commit_all_same_deps (renders : list (SquareProps * Chessboard))
    (inst : Instance) (w : number) (o : BoardOrientation) :
  effectDeps inst = Some (w, o) →
  Forall (λ r, boardWidth r.2 = w ∧ boardOrientation r.2 = o) renders →
  commit_all inst renders = (inst, []).
Proof.
  revert inst. induction renders as [|[p c] renders IH]; intros inst Hdeps Hall;
    [done|].
  apply Forall_cons in Hall as [[Hw Ho] Hall]. simpl in Hw, Ho.
  rewrite commit_all_cons. cbn [fst snd].
  assert (commit inst p c = (inst, [])) as ->.
  { unfold commit. rewrite Hw, Ho, Hdeps.
    assert (deps_changed (Some (w, o)) (w, o) = false) as ->
      by (by apply deps_changed_iff).
    destruct inst. simpl in Hdeps. by rewrite Hdeps. }
  simpl. by rewrite (IH inst Hdeps Hall).
Qed.

(** X15: however often the cell re-renders, as long as the board width
    and the orientation stay what they were at mount, the mount's
    publication is the only one: the whole run of commits publishes the
    coordinates once, under the key the cell had at mount. *)
Theorem one_publication_per_layout (el : Node) (props : SquareProps)
    (ctx : Chessboard) (renders : list (SquareProps * Chessboard))
    (m : gmap Sq Coords) :
  Forall (λ r, boardWidth r.2 = boardWidth ctx
               ∧ boardOrientation r.2 = boardOrientation ctx) renders →
  (commit_all (mount (Some el)) ((props, ctx) :: renders)).2
    = measure (Some el) (prop_square props)
  ∧ squares_run m (commit_all (mount (Some el)) ((props, ctx) :: renders)).2
    = <[ prop_square props := coords_of el ]> m.
Proof.
  intros Hall. rewrite commit_all_cons.
  rewrite (commit_all_same_deps renders _ (boardWidth ctx) (boardOrientation ctx));
    [|done|done].
  cbn [fst snd]. rewrite app_nil_r.
  assert ((commit (mount (Some el)) props ctx).2
          = measure (Some el) (prop_square props)) as -> by done.
  split; [done|]. apply measure_mounted.
Qed.

Lemma one_publication_per_layout_witness :
  squares_run ∅
    (commit_all (mount (Some wrapper_e4))
       [ (sample_props "e4", sample_context);
         (sample_props "e4", bordered_context);
         (sample_props "d4", with_autoPromoteToQueen sample_context true) ]).2
  = {[ "e4" := coords_of wrapper_e4 ]}.
Proof.
  refine (proj2 (one_publication_per_layout wrapper_e4 (sample_props "e4") sample_context
                   [ (sample_props "e4", bordered_context);
                     (sample_props "d4", with_autoPromoteToQueen sample_context true) ]
                   ∅ _)).
  repeat constructor.
Defined.

(** X16: a measurement skipped at mount because the DOM node was missing
    is not made up for when the node appears: with the node attached
    afterwards, a commit with the same board width and orientation still
    publishes nothing, and only a commit with another width or
    orientation publishes the coordinates. *)
Theorem skipped_measurement_waits (props props' : SquareProps) (ctx ctx' : Chessboard)
    (el : Node) :
  (commit (mount None) props ctx).2 = []
  ∧ (boardWidth ctx' = boardWidth ctx →
     boardOrientation ctx' = boardOrientation ctx →
       (commit (attach_ref (commit (mount None) props ctx).1 (Some el)) props' ctx').2
       = [])
  ∧ (boardWidth ctx' ≠ boardWidth ctx ∨ boardOrientation ctx' ≠ boardOrientation ctx →
       (commit (attach_ref (commit (mount None) props ctx).1 (Some el)) props' ctx').2
       = measure (Some el) (prop_square props')).
Proof.
  split; [done|]. unfold commit, attach_ref. cbn [fst snd effectDeps squareRef].
  split.
  - intros -> ->.
    assert (deps_changed (Some (boardWidth ctx, boardOrientation ctx))
              (boardWidth ctx, boardOrientation ctx) = false) as ->
      by (by apply deps_changed_iff).
    done.
  - intros Hne.
    destruct (deps_changed _ _) eqn:Hrun; [done|].
    apply deps_changed_iff in Hrun. injection Hrun as Hw Ho.
    destruct Hne as [Hne | Hne]; by destruct Hne.
Qed.

Lemma skipped_measurement_waits_witness :
  (commit (attach_ref (commit (mount None) (sample_props "e4") sample_context).1
             (Some wrapper_e4)) (sample_props "e4") bordered_context).2 = [].
Proof.
  destruct (skipped_measurement_waits (sample_props "e4") (sample_props "e4")
              sample_context bordered_context wrapper_e4) as (_ & Hsame & _).
  apply Hsame; reflexivity.
Defined.

(** ** Drop target *)

(** X17: whatever the promotion check and the auto-promote flag say, a
    drop either commits exactly one move and leaves the promotion dialog
    alone, or commits none and makes exactly the three dialog calls; a
    committed move always goes from the payload's origin to this cell,
    and its piece is the payload's own or a queen of the payload's
    colour. *)
Theorem handleDrop_one_outcome (ctx : Chessboard) (square : Sq) (item : DragItem) :
  ((∃ piece flag,
      handleDrop ctx square item
        = [ handleSetPosition (item_square item) square piece flag ]
      ∧ (piece = item_piece item
         ∨ ((piece = "wQ" ∨ piece = "bQ")
            ∧ first_is_w piece = first_is_w (item_piece item))))
   ∨ (handleDrop ctx square item
        = [ setPromoteFromSquare (item_square item);
            setPromoteToSquare square;
            setShowPromoteDialog true ]))
  ∧ (List.length (commits (handleDrop ctx square item)) ≤ 1)%nat
  ∧ (commits (handleDrop ctx square item) = [] ↔
       onPromotionCheck ctx (item_square item) square (item_piece item) = true
       ∧ autoPromoteToQueen ctx = false).
Proof.
  unfold handleDrop.
  destruct (onPromotionCheck ctx _ _ _), (autoPromoteToQueen ctx); simpl.
  - split; [|split; [lia | split; [done | by intros [_ ?]]]].
    left. eexists _, _. split; [done|]. right.
    destruct (first_is_w (item_piece item)); split; auto.
  - split; [by right | split; [lia | done]].
  - split; [|split; [lia | split; [done | by intros [? _]]]].
    left. eexists _, _. split; [done | by left].
  - split; [|split; [lia | split; [done | by intros [? _]]]].
    left. eexists _, _. split; [done | by left].
Qed.

(** ** Frame of the pointer handlers *)

(** The calls of the mouse, click, drag-enter and context-menu handlers
    for one event. *)
Lemma pointer_call_shape (ctx : Chessboard) (square : Sq) (e : MouseEvent) (c : Call) :
  c ∈ onMouseOver ctx square e ++ onMouseOut square e ++ onMouseDown square e
        ++ onMouseUp ctx square e ++ onDragEnter square ++ onClick square
        ++ onContextMenu →
  match c with
  | handleSetPosition _ _ _ _ | setPromoteFromSquare _ | setPromoteToSquare _
  | setShowPromoteDialog _ | setSquares _ | setLastSquareDraggedOver _ => False
  | _ => True
  end.
Proof.
  unfold onMouseOver, onMouseOut, onMouseDown, onMouseUp, onDragEnter, onClick,
    onContextMenu.
  destruct (currentRightClickDown ctx) as [o|];
    destruct (Z.eqb (buttons e) 2), (Z.eqb (button e) 2), (from_inside e);
    try destruct (truthy_str o); simpl;
    rewrite ?elem_of_cons, ?elem_of_nil; intros Hc;
    repeat (destruct Hc as [-> | Hc]; [done|]); done.
Qed.

(** X18: the mouse, click, drag-enter and context-menu handlers only
    signal: none of their calls commits a move, calls a promotion-dialog
    setter, publishes geometry or writes the cell's own record, so no move
    is committed and the cell instance and the geometry map are the same
    after them. *)
Theorem pointer_handlers_only_signal (ctx : Chessboard) (square : Sq)
    (e : MouseEvent) (inst : Instance) (m : gmap Sq Coords) :
  (∀ c, c ∈ onMouseOver ctx square e ++ onMouseOut square e ++ onMouseDown square e
              ++ onMouseUp ctx square e ++ onDragEnter square ++ onClick square
              ++ onContextMenu →
        match c with
        | handleSetPosition _ _ _ _ | setPromoteFromSquare _ | setPromoteToSquare _
        | setShowPromoteDialog _ | setSquares _ | setLastSquareDraggedOver _ => False
        | _ => True
        end)
  ∧ commits (onMouseOver ctx square e ++ onMouseOut square e ++ onMouseDown square e
               ++ onMouseUp ctx square e ++ onDragEnter square ++ onClick square
               ++ onContextMenu) = []
  ∧ fold_left local_step
      (onMouseOver ctx square e ++ onMouseOut square e ++ onMouseDown square e
         ++ onMouseUp ctx square e ++ onDragEnter square ++ onClick square
         ++ onContextMenu) inst = inst
  ∧ squares_run m
      (onMouseOver ctx square e ++ onMouseOut square e ++ onMouseDown square e
         ++ onMouseUp ctx square e ++ onDragEnter square ++ onClick square
         ++ onContextMenu) = m.
Proof.
  pose proof (pointer_call_shape ctx square e) as Hshape.
  revert Hshape. generalize (onMouseOver ctx square e ++ onMouseOut square e
    ++ onMouseDown square e ++ onMouseUp ctx square e ++ onDragEnter square
    ++ onClick square ++ onContextMenu).
  intros calls Hshape. split; [exact Hshape|].
  unfold commits, squares_run.
  induction calls as [|c calls IH]; [done|].
  assert (∀ c', c' ∈ calls → match c' with
    | handleSetPosition _ _ _ _ | setPromoteFromSquare _ | setPromoteToSquare _
    | setShowPromoteDialog _ | setSquares _ | setLastSquareDraggedOver _ => False
    | _ => True end) as Hrest
    by (intros c' Hc'; apply Hshape; apply elem_of_cons; by right).
  specialize (IH Hrest). destruct IH as (IH1 & IH2 & IH3).
  assert (c ∈ c :: calls) as Hc by (apply elem_of_cons; by left).
  apply Hshape in Hc.
  destruct c; try done; simpl; by rewrite ?IH1, ?IH2, ?IH3.
Qed.
